(** * Shallow embedding of drivers/thermal/samsung/isp_cooling.c

    The fps table queries ([get_property] and its wrappers), the cooling
    callbacks ([isp_apply_cooling], [isp_get_max_state], [isp_get_cur_state],
    [isp_set_cur_state]), the table construction from the ECT thermal block
    ([isp_cooling_table_init]), the trip limits read from it
    ([parse_ect_cooling_level]), registration ([get_idr], [release_idr],
    [__isp_cooling_register], [of_isp_cooling_register],
    [isp_cooling_unregister]) and the module initialisation
    ([exynos_isp_cooling_init]).

    Machine integers are modelled as [Z] with the wrap-around of the C
    conversions written out: [unsigned int] is 32 bits, [int] is 32-bit
    two's complement and [unsigned long] is 64 bits (arm64). *)

From stdpp Require Import base list strings gmap sets.
From Stdlib Require Import ZArith Lia.

Open Scope Z_scope.

(** ** Machine integers *)

Definition UINT_MOD : Z := 2 ^ 32.
Definition ULONG_MOD : Z := 2 ^ 64.

(** C conversion of an integer to [unsigned int]. *)
Definition to_uint (x : Z) : Z := x mod UINT_MOD.

(** C conversion of an integer to [unsigned long]. *)
Definition to_ulong (x : Z) : Z := x mod ULONG_MOD.

(** C conversion of an integer to [int] (two's complement, as GCC does). *)
Definition to_int (x : Z) : Z :=
  let w := x mod UINT_MOD in
  if w >=? 2 ^ 31 then w - UINT_MOD else w.

(** ** Error codes and results *)

Inductive errno := EINVAL | ENODEV | ENOMEM.

(** A query either stores its answer through [output] and returns 0
    ([Ok]), or returns a negative error code ([Err]). *)
Inductive result := Ok (v : Z) | Err (e : errno).

(** ** The fps table *)

(** [struct isp_fps_table] (soc/samsung/isp_cooling.h). *)
Record isp_fps_table := mk_isp_fps_table {
  flags : Z;
  driver_data : Z;
  fps : Z
}.

(** Modelled from the spec: the header soc/samsung/isp_cooling.h is not
    part of the sources. It reserves two fps values, one marking an
    invalid entry and one marking the end of the table ("a sentinel entry
    with a reserved end fps value"); as in the cpufreq table they mirror,
    they are [~0] and [~1] as [unsigned int]. *)
Definition ISP_FPS_ENTRY_INVALID : Z := 4294967295.
Definition ISP_FPS_TABLE_END : Z := 4294967294.

(** Modelled from the spec: the iteration macro
    [isp_fps_for_each_valid_entry(pos, table)] of soc/samsung/isp_cooling.h
    walks the entries from the start of the table up to the terminator and
    skips the entries marked invalid. [valid_fps] lists the fps values the
    loop body sees, in table order. (A list without a terminator is read to
    its end.) *)
Fixpoint valid_fps (t : list isp_fps_table) : list Z :=
  match t with
  | [] => []
  | e :: t' =>
      if fps e =? ISP_FPS_TABLE_END then []
      else if fps e =? ISP_FPS_ENTRY_INVALID then valid_fps t'
      else fps e :: valid_fps t'
  end.

Inductive isp_cooling_property := GET_LEVEL | GET_FPS | GET_MAXL.

(** The first loop of [get_property]: state [(fps, descend, max_level)]. *)
Fixpoint count_scan (fps descend max_level : Z) (l : list Z) : Z * Z * Z :=
  match l with
  | [] => (fps, descend, max_level)
  | p :: l' =>
      (* ignore duplicate entry *)
      if fps =? p then count_scan fps descend max_level l'
      else
        (* get the fps order *)
        let descend' :=
          if negb (fps =? ISP_FPS_ENTRY_INVALID) && (descend =? -1)
          then (if fps >? p then 1 else 0)
          else descend in
        count_scan p descend' (max_level + 1) l'
  end.

(** The second loop of [get_property]. It starts from the [fps] value the
    first loop left behind and from [i = 0]. *)
Fixpoint translate_scan (property : isp_cooling_property) (input level : Z)
    (descend max_level : Z) (fps i : Z) (l : list Z) : result :=
  match l with
  | [] => Err EINVAL
  | p :: l' =>
      (* ignore duplicate entry *)
      if fps =? p then translate_scan property input level descend max_level fps i l'
      else
        (* now we have a valid fps entry: fps = p *)
        match property with
        | GET_LEVEL =>
            if to_uint input =? p
            then Ok (to_uint (if negb (descend =? 0) then to_ulong i
                              else to_ulong (max_level - i)))
            else translate_scan property input level descend max_level p (i + 1) l'
        | GET_FPS =>
            if level =? to_ulong i then Ok p
            else translate_scan property input level descend max_level p (i + 1) l'
        | GET_MAXL =>
            translate_scan property input level descend max_level p (i + 1) l'
        end
  end.

(** [get_property isp input output property]. The global [isp_fps_table]
    is the argument [table] ([None] for a NULL pointer). The callers always
    pass the address of a local as [output], so the [!output] check never
    fires and is not modelled; [isp] is unused by the C code. *)
Definition get_property (table : option (list isp_fps_table)) (isp : Z)
    (input : Z) (property : isp_cooling_property) : result :=
  match table with
  | None => Err EINVAL
  | Some t =>
      let l := valid_fps t in
      let '(fps, descend, max_level) :=
        count_scan ISP_FPS_ENTRY_INVALID (-1) 0 l in
      (* No valid cpu fps entry *)
      if max_level =? 0 then Err EINVAL
      else
        (* max_level is an index, not a counter *)
        let max_level := max_level - 1 in
        match property with
        | GET_MAXL => Ok (to_uint max_level)
        | _ =>
            (* level = (int)input, stored in an unsigned long *)
            let level := to_ulong (to_int input) in
            translate_scan property input level descend max_level fps 0 l
        end
  end.

(** The three queries of the spec, on a table with the unused [isp = 0]. *)
Definition getMaxLevel (table : option (list isp_fps_table)) : result :=
  get_property table 0 0 GET_MAXL.
Definition fpsToLevel (table : option (list isp_fps_table)) (f : Z) : result :=
  get_property table 0 f GET_LEVEL.
Definition levelToFps (table : option (list isp_fps_table)) (lv : Z) : result :=
  get_property table 0 lv GET_FPS.

(** ** The cooling device *)

(** [struct isp_cooling_device]; [cool_dev] is the framework's handle and
    plays no part in the transitions. *)
Record isp_cooling_device := mk_isp_cooling_device {
  id : Z;
  isp_state : Z;   (* unsigned int *)
  isp_val : Z      (* unsigned int *)
}.

Inductive isp_event := ISP_THROTTLING.

(** One call of [blocking_notifier_call_chain(&isp_notifier, ev, &v)]: the
    event and the [unsigned long] it points to. *)
Definition notification : Type := isp_event * Z.

(** [isp_apply_cooling isp_device cooling_state]: the return value, the
    device afterwards and the notifications sent, in order.
    [cooling_state] is an [unsigned long]; the comparison widens
    [isp_state] to [unsigned long], the store narrows [cooling_state] to
    [unsigned int]. *)
Definition isp_apply_cooling (isp_device : isp_cooling_device)
    (cooling_state : Z) : Z * isp_cooling_device * list notification :=
  (* Check if the old cooling action is same as new cooling action *)
  if isp_state isp_device =? cooling_state then (0, isp_device, [])
  else
    let isp_device' :=
      {| id := id isp_device;
         isp_state := to_uint cooling_state;
         isp_val := isp_val isp_device |} in
    (0, isp_device', [(ISP_THROTTLING, cooling_state)]).

(** [isp_set_cur_state cdev state]: [cdev->devdata] is the device. *)
Definition isp_set_cur_state (isp_device : isp_cooling_device) (state : Z)
    : Z * isp_cooling_device * list notification :=
  isp_apply_cooling isp_device state.

(** ** Table construction from the ECT thermal block *)

(** [struct ect_ap_thermal_range] (soc/samsung/ect_parser.h), the fields
    the driver reads; both are [unsigned int]. *)
Record ect_ap_thermal_range := mk_ect_ap_thermal_range {
  lower_bound_temperature : Z;
  max_frequency : Z
}.

(** [struct ect_ap_thermal_function]: its name and its [range_list], whose
    length is [num_of_range]. *)
Record ect_ap_thermal_function := mk_ect_ap_thermal_function {
  function_name : string;
  range_list : list ect_ap_thermal_range
}.

Definition num_of_range (f : ect_ap_thermal_function) : nat :=
  length (range_list f).

(** Modelled from the spec: the ECT parser (drivers/soc/samsung/ect_parser.c)
    is not part of the sources. The thermal block is "a read-only, keyed
    table of {lowerBoundTemperature, maxFrequency} ranges for a named
    function": [ect_get_block(BLOCK_AP_THERMAL)] is [None] when the block is
    absent, and [ect_ap_thermal_get_function] returns the function of the
    given name, [None] when there is none. *)
Definition ect_thermal_block : Type := list ect_ap_thermal_function.

Fixpoint ect_ap_thermal_get_function (block : ect_thermal_block)
    (name : string) : option ect_ap_thermal_function :=
  match block with
  | [] => None
  | f :: block' =>
      if bool_decide (function_name f = name) then Some f
      else ect_ap_thermal_get_function block' name
  end.

(** What [isp_cooling_table_init] ends in: it returns 0 with the global
    [isp_fps_table] set to the array it filled, returns an error code, or
    stores through a NULL [isp_fps_table] (a fault). *)
Inductive init_outcome :=
  | Init_ok (table : list isp_fps_table)
  | Init_err (e : errno)
  | Init_fault.

(** The fill loop over [range_list[i]], [i < num_of_range]: state
    [(last_fps, count, table)]. [last_fps] is an [int]: the comparison with
    the [unsigned int] [max_frequency] converts it to [unsigned int], and
    [last_fps = isp_fps_table[count].fps] converts the stored [unsigned int]
    back to [int]. *)
Fixpoint fill_table (last_fps count : Z) (table : list isp_fps_table)
    (rs : list ect_ap_thermal_range) : Z * list isp_fps_table :=
  match rs with
  | [] => (count, table)
  | r :: rs' =>
      if to_uint last_fps =? max_frequency r then fill_table last_fps count table rs'
      else
        let e := {| flags := 0; driver_data := count; fps := to_uint (max_frequency r) |} in
        fill_table (to_int (fps e)) (count + 1) (<[Z.to_nat count := e]> table) rs'
  end.

(** A zeroed entry, as [kzalloc] leaves it. *)
Definition zero_entry : isp_fps_table := mk_isp_fps_table 0 0 0.

(** [isp_cooling_table_init] with [CONFIG_ECT]. [thermal_block] is what
    [ect_get_block(BLOCK_AP_THERMAL)] returns and [alloc_ok] whether
    [kzalloc] returns memory or NULL. The code does not test the result of
    [kzalloc]; with NULL the first store into [isp_fps_table[...]] faults,
    and there is always one: the terminator store after the loop. *)
Definition isp_cooling_table_init (thermal_block : option ect_thermal_block)
    (alloc_ok : bool) : init_outcome :=
  match thermal_block with
  | None => Init_err ENODEV
  | Some block =>
      match ect_ap_thermal_get_function block "ISP" with
      | None => Init_err ENODEV
      | Some function =>
          if negb alloc_ok then Init_fault
          else
            (* Table size can be num_of_range + 1 since last row has the value of TABLE_END *)
            let table0 := replicate (S (num_of_range function)) zero_entry in
            let '(count, table1) := fill_table (-1) 0 table0 (range_list function) in
            (* i == num_of_range holds once the loop has run to its end *)
            let term := match table1 !! Z.to_nat count with
                        | Some e => {| flags := flags e; driver_data := driver_data e;
                                       fps := ISP_FPS_TABLE_END |}
                        | None => zero_entry
                        end in
            Init_ok (<[Z.to_nat count := term]> table1)
      end
  end.

(** ** Definitions following the spec's words *)

(** The first element of each run of equal consecutive values: an element
    is kept when it differs from the one before it ([prev]). *)
Fixpoint run_heads_from (prev : option Z) (l : list Z) : list Z :=
  match l with
  | [] => []
  | x :: t =>
      if bool_decide (prev = Some x) then run_heads_from (Some x) t
      else x :: run_heads_from (Some x) t
  end.

Definition run_heads (l : list Z) : list Z := run_heads_from None l.

(** The table obtained by removing the valid entries whose fps equals the
    fps of the valid entry before them; invalid entries and everything from
    the terminator on are left in place. *)
Fixpoint remove_consecutive_dups (prev : option Z) (t : list isp_fps_table)
    : list isp_fps_table :=
  match t with
  | [] => []
  | e :: t' =>
      if fps e =? ISP_FPS_TABLE_END then t
      else if fps e =? ISP_FPS_ENTRY_INVALID then e :: remove_consecutive_dups prev t'
      else if bool_decide (prev = Some (fps e)) then remove_consecutive_dups prev t'
      else e :: remove_consecutive_dups (Some (fps e)) t'
  end.

(** Table entries [flags = 0], [driver_data = k, k+1, ...] for the given fps. *)
Fixpoint entries_from (k : Z) (l : list Z) : list isp_fps_table :=
  match l with
  | [] => []
  | x :: t => {| flags := 0; driver_data := k; fps := x |} :: entries_from (k + 1) t
  end.

(** A table in memory: entries [(fps, index)] followed by the terminator. *)
Definition table_of (l : list (Z * Z)) : list isp_fps_table :=
  map (fun '(f, ix) => mk_isp_fps_table 0 ix f) l
  ++ [mk_isp_fps_table 0 0 ISP_FPS_TABLE_END].

Definition desc_table : list isp_fps_table := table_of [(30, 0); (15, 1); (7, 2)].

(** A configuration block holding only an "ISP" function with the given
    max-frequencies. *)
Definition cfg (fs : list Z) : ect_thermal_block :=
  [mk_ect_ap_thermal_function "ISP" (map (fun f => mk_ect_ap_thermal_range 0 f) fs)].

(** The terminator entry [isp_cooling_table_init] leaves in the table. *)
Definition end_entry : isp_fps_table := mk_isp_fps_table 0 0 ISP_FPS_TABLE_END.

(** [l] without its first element when that element is [s]. *)
Definition skip_leading (s : Z) (l : list Z) : list Z :=
  match l with
  | x :: t => if x =? s then t else l
  | [] => []
  end.

(** ** The remaining entry points of isp_cooling.c *)

(** Error numbers of asm-generic/errno-base.h, as the driver returns them
    (negated). *)
Definition errno_val (e : errno) : Z :=
  match e with EINVAL => 22 | ENODEV => 19 | ENOMEM => 12 end.
Definition ENOSPC_val : Z := 28.
Definition INT_MAX : Z := 2 ^ 31 - 1.

(** The [int] a [get_property] call returns. *)
Definition ret_of (r : result) : Z :=
  match r with Ok _ => 0 | Err e => - errno_val e end.

(** Modelled from the spec: include/linux/thermal.h is not part of the
    sources; [THERMAL_CSTATE_INVALID], what [isp_cooling_get_level] returns
    when "no match is found", is [-1UL]. *)
Definition THERMAL_CSTATE_INVALID : Z := ULONG_MOD - 1.

(** [isp_cooling_get_level isp fps]: [fps] is an [unsigned int]; the result
    an [unsigned long]. *)
Definition isp_cooling_get_level (table : option (list isp_fps_table))
    (isp fps : Z) : Z :=
  match get_property table isp fps GET_LEVEL with
  | Ok val => val
  | Err _ => THERMAL_CSTATE_INVALID
  end.

(** [isp_get_max_state cdev state]: the return value and [*state]
    afterwards, from the value [state] points to before the call. [*state]
    is written only when the count is positive. *)
Definition isp_get_max_state (table : option (list isp_fps_table)) (state : Z)
    : Z * Z :=
  let r := get_property table 0 0 GET_MAXL in
  let count := match r with Ok v => v | Err _ => 0 end in
  (ret_of r, if count >? 0 then count else state).

(** [isp_get_cur_state cdev state]. *)
Definition isp_get_cur_state (isp_device : isp_cooling_device) : Z * Z :=
  (0, isp_state isp_device).

(** *** parse_ect_cooling_level *)

(** A [struct thermal_instance] of the cooling device: the type of its
    thermal zone (zones are told apart by their type), its trip and its
    [upper] limit ([unsigned long]). *)
Record thermal_instance := mk_thermal_instance {
  inst_tz : string;
  inst_trip : nat;
  upper : Z
}.

Definition THERMAL_NAME_LENGTH : nat := 20.

Definition ascii_tolower (c : Ascii.ascii) : Ascii.ascii :=
  let n := Ascii.nat_of_ascii c in
  if (65 <=? n)%nat && (n <=? 90)%nat then Ascii.ascii_of_nat (n + 32) else c.

(** [!strncasecmp(s1, s2, n)]: the strings agree, up to case, on their
    first [n] characters. *)
Fixpoint strncasecmp_eq (n : nat) (s1 s2 : string) : bool :=
  match n with
  | O => true
  | S n' =>
      match s1, s2 with
      | EmptyString, EmptyString => true
      | String c1 s1', String c2 s2' =>
          bool_decide (ascii_tolower c1 = ascii_tolower c2) && strncasecmp_eq n' s1' s2'
      | _, _ => false
      end
  end.

(** The [list_for_each_entry] search of [cdev->thermal_instances] for the
    zone named [tz_name]: the zone of the first matching instance. *)
Fixpoint find_tz (tz_name : string) (insts : list thermal_instance) : option string :=
  match insts with
  | [] => None
  | inst :: insts' =>
      if strncasecmp_eq THERMAL_NAME_LENGTH tz_name (inst_tz inst) then Some (inst_tz inst)
      else find_tz tz_name insts'
  end.

(** Modelled from the spec: [get_thermal_instance(tz, cdev, trip)] of the
    thermal core (drivers/thermal/thermal_core.c) is not part of the
    sources; it returns the instance binding the zone and the cooling
    device at that trip, here the first such instance of the device. *)
Fixpoint get_thermal_instance (tz : string) (trip : nat)
    (insts : list thermal_instance) : option thermal_instance :=
  match insts with
  | [] => None
  | inst :: insts' =>
      if bool_decide (inst_tz inst = tz) && (inst_trip inst =? trip)%nat then Some inst
      else get_thermal_instance tz trip insts'
  end.

(** [instance->upper = v] on the instance [get_thermal_instance] found. *)
Fixpoint set_upper (tz : string) (trip : nat) (v : Z)
    (insts : list thermal_instance) : list thermal_instance :=
  match insts with
  | [] => []
  | inst :: insts' =>
      if bool_decide (inst_tz inst = tz) && (inst_trip inst =? trip)%nat
      then {| inst_tz := inst_tz inst; inst_trip := inst_trip inst; upper := v |} :: insts'
      else inst :: set_upper tz trip v insts'
  end.

(** The loop over [range_list[i]] of [parse_ect_cooling_level]; a missing
    instance ends it ([goto skip_ect]). [max_level] is declared inside the
    loop, so every round asks [get_max_state] afresh from 0. [level] is an
    [int]: the comparison with [THERMAL_CSTATE_INVALID] converts it to
    [unsigned long], and so does the store into [upper]. *)
Fixpoint parse_ranges (table : option (list isp_fps_table)) (tz : string) (i : nat)
    (rs : list ect_ap_thermal_range) (insts : list thermal_instance)
    : list thermal_instance :=
  match rs with
  | [] => insts
  | r :: rs' =>
      match get_thermal_instance tz i insts with
      | None => insts
      | Some _ =>
          let max_level := snd (isp_get_max_state table 0) in
          let level := to_int (isp_cooling_get_level table 0 (max_frequency r)) in
          let level := if to_ulong level =? THERMAL_CSTATE_INVALID
                       then to_int max_level else level in
          parse_ranges table tz (S i) rs' (set_upper tz i (to_ulong level) insts)
      end
  end.

(** [parse_ect_cooling_level cdev tz_name]: the return value and the
    device's thermal instances afterwards. *)
Definition parse_ect_cooling_level (table : option (list isp_fps_table))
    (thermal_block : option ect_thermal_block) (tz_name : string)
    (insts : list thermal_instance) : Z * list thermal_instance :=
  match find_tz tz_name insts with
  | None => (0, insts)
  | Some tz =>
      match thermal_block with
      | None => (0, insts)
      | Some block =>
          match ect_ap_thermal_get_function block tz_name with
          | None => (0, insts)
          | Some function => (0, parse_ranges table tz 0 (range_list function) insts)
          end
      end
  end.

(** *** Registration *)

(** The driver's globals besides the table: the ids held in [isp_idr] and
    [isp_dev_count] ([unsigned int]). *)
Record isp_globals := mk_isp_globals {
  isp_idr : gset Z;
  isp_dev_count : Z
}.

(** Modelled from the spec: [idr_alloc(idr, NULL, 0, 0, GFP_KERNEL)]
    (lib/idr.c) is not part of the sources. It "allocates a unique id":
    the smallest id from 0 up to [INT_MAX] not in use, added to the idr;
    it fails with -ENOMEM when the idr cannot get memory ([mem_ok = false])
    and with -ENOSPC when every id up to [INT_MAX] is taken. The result is
    the new id or the negative error, with the ids afterwards. *)
Definition idr_alloc (ids : gset Z) (mem_ok : bool) : Z * gset Z :=
  if negb mem_ok then (- errno_val ENOMEM, ids)
  else
    match list_find (fun k => k ∉ ids) (map Z.of_nat (seq 0 (S (size ids)))) with
    | Some (_, k) => if k >? INT_MAX then (- ENOSPC_val, ids) else (k, {[k]} ∪ ids)
    | None => (- ENOSPC_val, ids)
    end.

(** [get_idr(&isp_idr, &id)]: the return value, the id and the globals. *)
Definition get_idr (g : isp_globals) (mem_ok : bool) : Z * Z * isp_globals :=
  let '(ret, ids) := idr_alloc (isp_idr g) mem_ok in
  if ret <? 0 then (ret, 0, g)
  else (0, ret, {| isp_idr := ids; isp_dev_count := isp_dev_count g |}).

(** [release_idr(&isp_idr, id)]. *)
Definition release_idr (g : isp_globals) (id : Z) : isp_globals :=
  {| isp_idr := isp_idr g ∖ {[id]}; isp_dev_count := isp_dev_count g |}.

(** What a registration returns: the new device, or [ERR_PTR(code)]. *)
Inductive reg_result := Reg_ok (dev : isp_cooling_device) | Reg_err (code : Z).

(** [__isp_cooling_register np clip_isp]. [kzalloc_ok] is whether [kzalloc]
    returns memory, [idr_mem_ok] whether [idr_alloc] gets memory, and
    [reg_err] the error of [thermal_of_cooling_device_register] ([None]
    when it succeeds). The call to [parse_ect_cooling_level] that follows a
    successful registration touches only the thermal instances (see
    [parse_ect_cooling_level]) and always returns 0. *)
Definition isp_cooling_register_helper (g : isp_globals) (kzalloc_ok idr_mem_ok : bool)
    (reg_err : option Z) : reg_result * isp_globals :=
  if negb kzalloc_ok then (Reg_err (- errno_val ENOMEM), g)
  else
    let '(ret, id, g1) := get_idr g idr_mem_ok in
    if negb (ret =? 0) then (Reg_err (- errno_val EINVAL), g)
    else
      match reg_err with
      | Some e => (Reg_err e, release_idr g1 id)
      | None =>
          let dev := {| id := id; isp_state := 0; isp_val := 0 |} in
          (Reg_ok dev, {| isp_idr := isp_idr g1; isp_dev_count := to_uint (isp_dev_count g1 + 1) |})
      end.

(** [of_isp_cooling_register np clip_isp]; [np_ok] is [np != NULL]. *)
Definition of_isp_cooling_register (g : isp_globals) (np_ok : bool)
    (kzalloc_ok idr_mem_ok : bool) (reg_err : option Z) : reg_result * isp_globals :=
  if negb np_ok then (Reg_err (- errno_val EINVAL), g)
  else isp_cooling_register_helper g kzalloc_ok idr_mem_ok reg_err.

(** [isp_cooling_unregister cdev]; [None] for a NULL [cdev]. *)
Definition isp_cooling_unregister (g : isp_globals) (dev : option isp_cooling_device)
    : isp_globals :=
  match dev with
  | None => g
  | Some d =>
      let g1 := {| isp_idr := isp_idr g; isp_dev_count := to_uint (isp_dev_count g - 1) |} in
      release_idr g1 (id d)
  end.

(** What [exynos_isp_cooling_init] ends in: a return value with the table
    and globals afterwards, or a fault inside [isp_cooling_table_init]. *)
Inductive init_result :=
  | Mod_ret (ret : Z) (table : option (list isp_fps_table)) (g : isp_globals)
  | Mod_fault.

(** [exynos_isp_cooling_init]: [table] is the global [isp_fps_table] before
    the call and [np_found] whether [of_find_node_by_name] finds the node. *)
Definition exynos_isp_cooling_init (table : option (list isp_fps_table)) (g : isp_globals)
    (thermal_block : option ect_thermal_block) (alloc_ok np_found : bool)
    (kzalloc_ok idr_mem_ok : bool) (reg_err : option Z) : init_result :=
  match isp_cooling_table_init thermal_block alloc_ok with
  | Init_fault => Mod_fault
  | Init_err e => Mod_ret (- errno_val e) table g
  | Init_ok t =>
      if negb np_found then Mod_ret (- errno_val EINVAL) (Some t) g
      else
        match of_isp_cooling_register g true kzalloc_ok idr_mem_ok reg_err with
        | (Reg_err _, g') => Mod_ret (- errno_val EINVAL) (Some t) g'
        | (Reg_ok _, g') => Mod_ret 0 (Some t) g'
        end
  end.

(** A sequence of [isp_set_cur_state] calls: the device at the end and the
    notifications sent, in order. *)
Fixpoint set_cur_state_seq (d : isp_cooling_device) (ls : list Z)
    : isp_cooling_device * list notification :=
  match ls with
  | [] => (d, [])
  | l :: ls' =>
      let '(_, d1, ns1) := isp_set_cur_state d l in
      let '(d2, ns2) := set_cur_state_seq d1 ls' in
      (d2, ns1 ++ ns2)
  end.

(** ** Helper lemmas *)

Lemma valid_fps_not_invalid (t : list isp_fps_table) :
  Forall (fun x => x <> ISP_FPS_ENTRY_INVALID) (valid_fps t).
Proof.
  induction t as [|e t IH]; simpl; [constructor|].
  destruct (fps e =? ISP_FPS_TABLE_END) eqn:Hend; [constructor|].
  destruct (fps e =? ISP_FPS_ENTRY_INVALID) eqn:Hinv; [exact IH|].
  constructor; [apply Z.eqb_neq; exact Hinv | exact IH].
Qed.

Lemma run_heads_from_idem (x : Z) (l : list Z) :
  run_heads_from (Some x) (run_heads_from (Some x) l) = run_heads_from (Some x) l.
Proof.
  revert x; induction l as [|y l IH]; intros x; simpl; [reflexivity|].
  case_bool_decide as Hxy.
  - injection Hxy as ->. apply IH.
  - simpl. rewrite bool_decide_false by exact Hxy. rewrite IH. reflexivity.
Qed.

Lemma run_heads_from_run_heads (q : option Z) (l : list Z) :
  run_heads_from q (run_heads l) = run_heads_from q l.
Proof.
  destruct l as [|y l]; [reflexivity|].
  unfold run_heads; simpl. rewrite run_heads_from_idem. reflexivity.
Qed.

Lemma count_scan_run_heads (f d m : Z) (l : list Z) :
  count_scan f d m l = count_scan f d m (run_heads_from (Some f) l).
Proof.
  revert f d m; induction l as [|p l IH]; intros f d m; simpl; [reflexivity|].
  case_bool_decide as Hfp.
  - injection Hfp as <-. rewrite Z.eqb_refl. apply IH.
  - assert (Hne : f <> p) by congruence.
    apply Z.eqb_neq in Hne. simpl. rewrite Hne. apply IH.
Qed.

Lemma translate_scan_run_heads prop input level d m (f i : Z) (l : list Z) :
  translate_scan prop input level d m f i l =
  translate_scan prop input level d m f i (run_heads_from (Some f) l).
Proof.
  revert f i; induction l as [|p l IH]; intros f i; simpl; [reflexivity|].
  case_bool_decide as Hfp.
  - injection Hfp as <-. rewrite Z.eqb_refl. apply IH.
  - assert (Hne : f <> p) by congruence.
    apply Z.eqb_neq in Hne. simpl. rewrite Hne.
    destruct prop; [destruct (to_uint input =? p) | destruct (level =? to_ulong i) |];
      try reflexivity; apply IH.
Qed.

Lemma valid_fps_remove_consecutive_dups (prev : option Z) (t : list isp_fps_table) :
  valid_fps (remove_consecutive_dups prev t) = run_heads_from prev (valid_fps t).
Proof.
  revert prev; induction t as [|e t IH]; intros prev; simpl; [reflexivity|].
  destruct (fps e =? ISP_FPS_TABLE_END) eqn:Hend.
  - simpl. rewrite Hend. reflexivity.
  - destruct (fps e =? ISP_FPS_ENTRY_INVALID) eqn:Hinv.
    + simpl. rewrite Hend, Hinv. apply IH.
    + case_bool_decide as Hp.
      * rewrite IH, Hp. simpl. rewrite bool_decide_true by reflexivity. reflexivity.
      * simpl. rewrite Hend, Hinv, IH, bool_decide_false by exact Hp. reflexivity.
Qed.

Lemma count_scan_const (v d m : Z) (l : list Z) :
  Forall (fun x => x = v) l -> count_scan v d m l = (v, d, m).
Proof.
  induction 1 as [|x l Hx _ IH]; simpl; [reflexivity|].
  subst x. rewrite Z.eqb_refl. exact IH.
Qed.

Lemma translate_scan_const prop input level d m (v i : Z) (l : list Z) :
  Forall (fun x => x = v) l -> translate_scan prop input level d m v i l = Err EINVAL.
Proof.
  induction 1 as [|x l Hx _ IH]; simpl; [reflexivity|].
  subst x. rewrite Z.eqb_refl. exact IH.
Qed.

Lemma to_uint_to_int (x : Z) : 0 <= x < UINT_MOD -> to_uint (to_int x) = x.
Proof.
  intros Hx. unfold to_uint, to_int. rewrite (Z.mod_small x) by lia.
  destruct (x >=? 2 ^ 31) eqn:Hge.
  - replace (x - UINT_MOD) with (x + (-1) * UINT_MOD) by lia.
    rewrite Z.mod_add by (unfold UINT_MOD; lia). apply Z.mod_small; lia.
  - apply Z.mod_small; lia.
Qed.

Lemma length_entries_from (k : Z) (l : list Z) : length (entries_from k l) = length l.
Proof. revert k; induction l as [|x l IH]; intros k; simpl; [reflexivity|]. by rewrite IH. Qed.

Lemma run_heads_from_length (q : option Z) (l : list Z) :
  (length (run_heads_from q l) <= length l)%nat.
Proof.
  revert q; induction l as [|x l IH]; intros q; simpl; [lia|].
  case_bool_decide; simpl; specialize (IH (Some x)); lia.
Qed.

Lemma run_heads_from_Some (s : Z) (l : list Z) :
  run_heads_from (Some s) l = skip_leading s (run_heads l).
Proof.
  destruct l as [|x l]; [reflexivity|].
  unfold run_heads; simpl.
  destruct (x =? s) eqn:Hxs.
  - apply Z.eqb_eq in Hxs as ->. rewrite bool_decide_true by reflexivity. reflexivity.
  - apply Z.eqb_neq in Hxs. rewrite bool_decide_false by congruence. reflexivity.
Qed.

(** The fill loop, from a state whose [last_fps] is [to_int x] and whose
    first [length acc] entries are filled, keeps the run heads after [x]. *)
Lemma fill_table_spec (rs : list ect_ap_thermal_range) (x : Z)
    (acc : list isp_fps_table) (k : nat) :
  0 <= x < UINT_MOD ->
  Forall (fun r => 0 <= max_frequency r < UINT_MOD) rs ->
  (length rs <= k)%nat ->
  let kept := run_heads_from (Some x) (map max_frequency rs) in
  fill_table (to_int x) (Z.of_nat (length acc)) (acc ++ replicate k zero_entry) rs =
  (Z.of_nat (length acc + length kept),
   acc ++ entries_from (Z.of_nat (length acc)) kept ++ replicate (k - length kept) zero_entry).
Proof.
  revert x acc k; induction rs as [|r rs IH]; intros x acc k Hx Hrs Hk kept.
  - subst kept; simpl. rewrite Nat.add_0_r, Nat.sub_0_r. reflexivity.
  - inversion Hrs as [|? ? Hr Hrs']; subst. simpl in Hk.
    subst kept; simpl. rewrite (to_uint_to_int x Hx).
    destruct (x =? max_frequency r) eqn:Hxr.
    + apply Z.eqb_eq in Hxr. rewrite Hxr, bool_decide_true by reflexivity.
      rewrite <- Hxr. apply IH; [exact Hx | exact Hrs' | lia].
    + apply Z.eqb_neq in Hxr. rewrite bool_decide_false by congruence.
      destruct k as [|k]; [lia|].
      rewrite Nat2Z.id, replicate_S.
      rewrite insert_app_r_alt by lia. rewrite Nat.sub_diag. simpl.
      unfold to_uint at 1 2. rewrite (Z.mod_small (max_frequency r)) by lia.
      replace (acc ++ _ :: replicate k zero_entry)
        with ((acc ++ [mk_isp_fps_table 0 (Z.of_nat (length acc)) (max_frequency r)])
              ++ replicate k zero_entry) by (rewrite <- app_assoc; reflexivity).
      replace (Z.of_nat (length acc) + 1)
        with (Z.of_nat (length (acc ++ [mk_isp_fps_table 0 (Z.of_nat (length acc)) (max_frequency r)])))
        by (rewrite length_app; simpl; lia).
      rewrite IH by (assumption || lia).
      rewrite length_app; simpl.
      rewrite <- app_assoc. simpl.
      f_equal. f_equal. lia.
Qed.

(** [isp_cooling_table_init] when the block, the "ISP" function and the
    memory are there: the fill loop starts from [last_fps = -1], the [int]
    whose bits are those of the [unsigned int] 4294967295. *)
Lemma table_init_ok (block : ect_thermal_block) (function : ect_ap_thermal_function) :
  ect_ap_thermal_get_function block "ISP" = Some function ->
  Forall (fun r => 0 <= max_frequency r < UINT_MOD) (range_list function) ->
  let kept := run_heads_from (Some 4294967295) (map max_frequency (range_list function)) in
  isp_cooling_table_init (Some block) true =
  Init_ok (entries_from 0 kept ++ end_entry :: replicate (num_of_range function - length kept) zero_entry).
Proof.
  intros Hf Hrs kept. unfold isp_cooling_table_init. rewrite Hf. simpl negb. cbv iota.
  pose proof (fill_table_spec (range_list function) 4294967295 [] (S (num_of_range function)))
    as Hfill.
  change (to_int 4294967295) with (-1) in Hfill.
  change (Z.of_nat (length [])) with 0 in Hfill. rewrite app_nil_l in Hfill.
  cbv zeta in Hfill.
  rewrite Hfill by (unfold UINT_MOD; lia || assumption || (unfold num_of_range; lia)).
  fold kept.
  pose proof (run_heads_from_length (Some 4294967295) (map max_frequency (range_list function)))
    as Hlen.
  rewrite length_map in Hlen. fold kept in Hlen. unfold num_of_range in *.
  simpl. rewrite Nat2Z.id.
  rewrite lookup_app_r by (rewrite length_entries_from; lia).
  rewrite length_entries_from, Nat.sub_diag.
  replace (S (length (range_list function)) - length kept)%nat
    with (S (length (range_list function) - length kept)) by lia.
  simpl. rewrite insert_app_r_alt by (rewrite length_entries_from; lia).
  rewrite length_entries_from, Nat.sub_diag. reflexivity.
Qed.

(** ** Claims *)

(** C1 (code bug). The round trip [fpsToLevel (levelToFps L) = L] fails on
    the ascending table [10, 20, 30]: GET_FPS returns the fps at scan
    position [L], while GET_LEVEL turns scan position [i] into
    [max_level - i] on an ascending table, so level 0 maps to 10 and 10
    maps back to level 2. *)
Theorem roundtrip_fails_on_ascending_table :
  let t := Some (table_of [(10, 0); (20, 1); (30, 2)]) in
  getMaxLevel t = Ok 2 /\ levelToFps t 0 = Ok 10 /\ fpsToLevel t 10 = Ok 2.
Proof. vm_compute. repeat split. Qed.

(** C2 (amended). [isp_set_cur_state] with the current level returns 0,
    leaves the device as it is and sends nothing; with any other
    [unsigned long] level it returns 0, stores the level truncated to
    [unsigned int] and sends exactly one [ISP_THROTTLING] notification
    carrying the full level; no level is refused. For a level below 2^32
    the stored state is the level itself. *)
Theorem isp_set_cur_state_spec (d : isp_cooling_device) (new_level : Z) :
  (isp_state d = new_level -> isp_set_cur_state d new_level = (0, d, [])) /\
  (isp_state d <> new_level ->
   isp_set_cur_state d new_level =
   (0, {| id := id d; isp_state := new_level mod 2 ^ 32; isp_val := isp_val d |},
    [(ISP_THROTTLING, new_level)])) /\
  (0 <= new_level < 2 ^ 32 -> isp_state d <> new_level ->
   isp_state (snd (fst (isp_set_cur_state d new_level))) = new_level).
Proof.
  unfold isp_set_cur_state, isp_apply_cooling. split; [|split].
  - intros ->. rewrite Z.eqb_refl. reflexivity.
  - intros Hne. apply Z.eqb_neq in Hne. rewrite Hne. reflexivity.
  - intros Hr Hne. apply Z.eqb_neq in Hne. rewrite Hne. simpl.
    unfold to_uint, UINT_MOD. apply Z.mod_small. exact Hr.
Qed.

Lemma isp_set_cur_state_spec_witness :
  isp_set_cur_state (mk_isp_cooling_device 0 0 0) 2 =
  (0, mk_isp_cooling_device 0 2 0, [(ISP_THROTTLING, 2)]) /\
  isp_state (snd (fst (isp_set_cur_state (mk_isp_cooling_device 0 0 0) 2))) = 2.
Proof.
  split.
  - apply (proj1 (proj2 (isp_set_cur_state_spec (mk_isp_cooling_device 0 0 0) 2))).
    simpl. lia.
  - apply (proj2 (proj2 (isp_set_cur_state_spec (mk_isp_cooling_device 0 0 0) 2))).
    + lia.
    + simpl. lia.
Defined.

(** C2 (counterexample). From state 0, setting the level 2^32 (an
    [unsigned long] different from the current level) leaves the stored
    state at 0, not at 2^32, while a notification carrying 2^32 is sent. *)
Lemma isp_set_cur_state_truncates :
  let d := mk_isp_cooling_device 0 0 0 in
  isp_state d <> 2 ^ 32 /\
  isp_state (snd (fst (isp_set_cur_state d (2 ^ 32)))) = 0 /\
  snd (isp_set_cur_state d (2 ^ 32)) = [(ISP_THROTTLING, 2 ^ 32)].
Proof. vm_compute. split; [discriminate | split; reflexivity]. Qed.

(** C3 (code bug). On a table with the single valid entry 30, GET_LEVEL of
    30 fails with -EINVAL although 30 is the distinct entry at position 0
    (where both [i] and [max_level - i] are 0): the second scan starts with
    [fps = 30] left over from the counting scan and skips the entry. *)
Theorem fpsToLevel_fails_on_single_entry :
  let t := Some (table_of [(30, 0)]) in
  getMaxLevel t = Ok 0 /\ fpsToLevel t 30 = Err EINVAL.
Proof. vm_compute. split; reflexivity. Qed.

(** C4. The descending table [30, 15, 7] with indexes 0, 1, 2. *)
Theorem descending_table_scenario :
  let t := Some (table_of [(30, 0); (15, 1); (7, 2)]) in
  getMaxLevel t = Ok 2 /\ fpsToLevel t 30 = Ok 0 /\ fpsToLevel t 7 = Ok 2 /\
  levelToFps t 0 = Ok 30 /\ levelToFps t 2 = Ok 7.
Proof. vm_compute. repeat split. Qed.

(** C5 (code bug). GET_FPS stores [(int)input] in [level]: the
    [unsigned long] level 2^32 becomes 0, so on the table [30, 15, 7]
    (max level 2) [levelToFps (2^32)] returns 30 instead of failing. *)
Theorem levelToFps_wraps_large_level :
  let t := Some (table_of [(30, 0); (15, 1); (7, 2)]) in
  getMaxLevel t = Ok 2 /\ levelToFps t (2 ^ 32) = Ok 30.
Proof. vm_compute. split; reflexivity. Qed.

(** C6. With no table, or a table without valid entries, the three queries
    fail with -EINVAL whatever their input. *)
Theorem queries_fail_on_empty_table (table : option (list isp_fps_table)) :
  (table = None \/ exists t, table = Some t /\ valid_fps t = []) ->
  forall x, getMaxLevel table = Err EINVAL /\ fpsToLevel table x = Err EINVAL /\
            levelToFps table x = Err EINVAL.
Proof.
  intros [-> | [t [-> Ht]]] x.
  - repeat split.
  - unfold getMaxLevel, fpsToLevel, levelToFps, get_property.
    rewrite Ht. repeat split.
Qed.

Lemma queries_fail_on_empty_table_witness :
  getMaxLevel (Some [end_entry; zero_entry]) = Err EINVAL /\
  fpsToLevel (Some [end_entry; zero_entry]) 0 = Err EINVAL /\
  levelToFps (Some [end_entry; zero_entry]) 0 = Err EINVAL.
Proof.
  apply (queries_fail_on_empty_table (Some [end_entry; zero_entry])).
  right. exists [end_entry; zero_entry]. split; reflexivity.
Defined.

(** C7. Every query gives the same answer on a table and on the table
    without its consecutive duplicate valid entries. *)
Theorem queries_ignore_consecutive_dups (t : list isp_fps_table) (isp input : Z)
    (property : isp_cooling_property) :
  get_property (Some t) isp input property =
  get_property (Some (remove_consecutive_dups None t)) isp input property.
Proof.
  unfold get_property. rewrite valid_fps_remove_consecutive_dups. fold (run_heads (valid_fps t)).
  set (l := valid_fps t).
  assert (Hc : count_scan ISP_FPS_ENTRY_INVALID (-1) 0 (run_heads l) =
               count_scan ISP_FPS_ENTRY_INVALID (-1) 0 l).
  { rewrite count_scan_run_heads, run_heads_from_run_heads.
    symmetry. apply count_scan_run_heads. }
  rewrite Hc.
  destruct (count_scan ISP_FPS_ENTRY_INVALID (-1) 0 l) as [[f d] m].
  destruct (m =? 0); [reflexivity|].
  destruct property; try reflexivity;
    rewrite (translate_scan_run_heads _ _ _ _ _ f 0 (run_heads l)),
      run_heads_from_run_heads, <- translate_scan_run_heads; reflexivity.
Qed.

(** C8 (counterexample). The ranges with max-frequencies 4294967295 and 30
    form two runs, but the table gets one entry: the first max-frequency
    equals the initial [last_fps = -1] once converted to [unsigned int]. *)
Lemma table_init_skips_leading_sentinel_run :
  isp_cooling_table_init (Some (cfg [4294967295; 30])) true =
    Init_ok (entries_from 0 [30] ++ end_entry :: replicate 1 zero_entry) /\
  isp_cooling_table_init (Some (cfg [4294967295; 30])) true <>
    Init_ok (entries_from 0 (run_heads [4294967295; 30]) ++ end_entry :: replicate 0 zero_entry).
Proof. vm_compute. split; [reflexivity | discriminate]. Qed.

(** C8 (amended). [isp_cooling_table_init] fails with -ENODEV when the ECT
    thermal block or its "ISP" function is absent. Otherwise, when the
    allocation succeeds and the max-frequencies are [unsigned int] values,
    the table holds one entry per run of consecutive ranges with equal
    max-frequency ([flags = 0], [driver_data] the sequential index), except
    that a leading run whose max-frequency is 4294967295 (the bits of the
    initial [last_fps = -1]) yields no entry; then comes the terminator, and
    the rest of the allocated array stays zeroed. *)
Theorem isp_cooling_table_init_spec :
  (forall alloc_ok, isp_cooling_table_init None alloc_ok = Init_err ENODEV) /\
  (forall block alloc_ok, ect_ap_thermal_get_function block "ISP" = None ->
     isp_cooling_table_init (Some block) alloc_ok = Init_err ENODEV) /\
  (forall block function, ect_ap_thermal_get_function block "ISP" = Some function ->
     Forall (fun r => 0 <= max_frequency r < UINT_MOD) (range_list function) ->
     let kept := skip_leading 4294967295 (run_heads (map max_frequency (range_list function))) in
     isp_cooling_table_init (Some block) true =
     Init_ok (entries_from 0 kept ++
              end_entry :: replicate (num_of_range function - length kept) zero_entry)).
Proof.
  split; [|split].
  - reflexivity.
  - intros block alloc_ok Hf. unfold isp_cooling_table_init. rewrite Hf. reflexivity.
  - intros block function Hf Hrs kept. subst kept.
    rewrite <- run_heads_from_Some. apply table_init_ok; assumption.
Qed.

Lemma isp_cooling_table_init_spec_witness :
  isp_cooling_table_init (Some (cfg [30; 30; 15; 7; 7])) true =
  Init_ok (entries_from 0 [30; 15; 7] ++ end_entry :: replicate 2 zero_entry).
Proof.
  apply (proj2 (proj2 isp_cooling_table_init_spec)
           (cfg [30; 30; 15; 7; 7])
           (mk_ect_ap_thermal_function "ISP"
              (map (fun f => mk_ect_ap_thermal_range 0 f) [30; 30; 15; 7; 7]))).
  - reflexivity.
  - repeat constructor; simpl; unfold UINT_MOD; lia.
Defined.

(** C9 (code bug). The result of [kzalloc] is not checked: when it fails,
    the code stores through the NULL [isp_fps_table] instead of returning
    -ENOMEM. *)
Theorem table_init_alloc_failure_faults (block : ect_thermal_block)
    (function : ect_ap_thermal_function) :
  ect_ap_thermal_get_function block "ISP" = Some function ->
  isp_cooling_table_init (Some block) false = Init_fault.
Proof. intros Hf. unfold isp_cooling_table_init. rewrite Hf. reflexivity. Qed.

Lemma table_init_alloc_failure_faults_witness :
  isp_cooling_table_init (Some (cfg [30; 15; 7])) false = Init_fault.
Proof.
  apply (table_init_alloc_failure_faults (cfg [30; 15; 7])
           (mk_ect_ap_thermal_function "ISP"
              (map (fun f => mk_ect_ap_thermal_range 0 f) [30; 15; 7]))).
  reflexivity.
Defined.

(** C10. On a table whose valid entries all have the fps [v], the max level
    is 0, but GET_LEVEL of [v] and GET_FPS of 0 fail with -EINVAL: the
    translation scan starts with [fps = v] left over from the counting scan
    and skips every entry. *)
Theorem single_value_table_queries (t : list isp_fps_table) (v : Z) (rest : list Z) :
  valid_fps t = v :: rest -> Forall (fun x => x = v) rest ->
  getMaxLevel (Some t) = Ok 0 /\ fpsToLevel (Some t) v = Err EINVAL /\
  levelToFps (Some t) 0 = Err EINVAL.
Proof.
  intros Ht Hrest.
  pose proof (valid_fps_not_invalid t) as Hv. rewrite Ht in Hv.
  inversion Hv as [|? ? Hvi _]; subst.
  assert (Hc : count_scan ISP_FPS_ENTRY_INVALID (-1) 0 (v :: rest) = (v, -1, 1)).
  { cbn [count_scan]. rewrite (proj2 (Z.eqb_neq _ _) (not_eq_sym Hvi)).
    apply count_scan_const. exact Hrest. }
  assert (Hall : Forall (fun x => x = v) (v :: rest)) by (constructor; [reflexivity | exact Hrest]).
  unfold getMaxLevel, fpsToLevel, levelToFps, get_property.
  rewrite Ht, Hc. cbn zeta iota beta.
  split; [reflexivity|].
  split; apply translate_scan_const; exact Hall.
Qed.

Lemma single_value_table_queries_witness :
  getMaxLevel (Some (table_of [(30, 0); (30, 1)])) = Ok 0 /\
  fpsToLevel (Some (table_of [(30, 0); (30, 1)])) 30 = Err EINVAL /\
  levelToFps (Some (table_of [(30, 0); (30, 1)])) 0 = Err EINVAL.
Proof.
  apply (single_value_table_queries (table_of [(30, 0); (30, 1)]) 30 [30]).
  - reflexivity.
  - repeat constructor.
Defined.

(** ** Further properties of the code *)

(** *** Helper lemmas for the queries *)

Lemma count_scan_count (f d m : Z) (l : list Z) :
  snd (count_scan f d m l) = m + Z.of_nat (length (run_heads_from (Some f) l)).
Proof.
  revert f d m; induction l as [|p l IH]; intros f d m; simpl; [lia|].
  destruct (f =? p) eqn:Hfp.
  - apply Z.eqb_eq in Hfp as <-. rewrite bool_decide_true by reflexivity. apply IH.
  - apply Z.eqb_neq in Hfp. rewrite bool_decide_false by congruence.
    simpl length. rewrite IH. lia.
Qed.

Lemma count_scan_descend_fixed (f d m : Z) (l : list Z) :
  d <> -1 -> snd (fst (count_scan f d m l)) = d.
Proof.
  intros Hd. revert f m; induction l as [|p l IH]; intros f m; simpl; [reflexivity|].
  destruct (f =? p); [apply IH|].
  rewrite (proj2 (Z.eqb_neq d (-1)) Hd), andb_false_r. apply IH.
Qed.

Lemma run_heads_not_head (s : Z) (l : list Z) :
  Forall (fun x => x <> s) l -> run_heads_from (Some s) l = run_heads l.
Proof.
  intros Hl. rewrite run_heads_from_Some.
  destruct l as [|x l]; [reflexivity|]. inversion Hl; subst.
  unfold run_heads; simpl.
  rewrite (proj2 (Z.eqb_neq x s)) by assumption. reflexivity.
Qed.

Lemma run_heads_length_pos (l : list Z) : l <> [] -> (1 <= length (run_heads l))%nat.
Proof.
  destruct l as [|x l]; [congruence|]. intros _. unfold run_heads; simpl. lia.
Qed.

Lemma run_heads_skip_length (f : Z) (l : list Z) :
  (length (run_heads_from (Some f) l) <= length (run_heads l))%nat.
Proof.
  rewrite run_heads_from_Some. destruct (run_heads l) as [|x r]; simpl; [lia|].
  destruct (x =? f); simpl; lia.
Qed.

Lemma run_heads_from_nodup (x : Z) (l : list Z) :
  NoDup (x :: l) -> run_heads_from (Some x) l = l.
Proof.
  revert x; induction l as [|y l IH]; intros x Hnd; [reflexivity|].
  simpl. apply NoDup_cons in Hnd as [Hx Hnd].
  rewrite bool_decide_false by (intros Heq; injection Heq as ->; apply Hx; left).
  f_equal. apply IH. exact Hnd.
Qed.

Lemma run_heads_from_fixed_cons (f p : Z) (l : list Z) :
  run_heads_from (Some f) (p :: l) = p :: l -> f <> p /\ run_heads_from (Some p) l = l.
Proof.
  simpl. case_bool_decide as Hfp.
  - intros Heq. pose proof (run_heads_from_length (Some p) l) as Hlen.
    rewrite Heq in Hlen. simpl in Hlen. lia.
  - intros Heq. injection Heq as Heq. split; [congruence | exact Heq].
Qed.

Lemma translate_fps_in (input level d m f i v : Z) (l : list Z) :
  translate_scan GET_FPS input level d m f i l = Ok v -> In v l.
Proof.
  revert f i; induction l as [|p l IH]; intros f i; simpl; [discriminate|].
  destruct (f =? p); [intros H; right; exact (IH _ _ H)|].
  destruct (level =? to_ulong i).
  - intros H; injection H as ->; left; reflexivity.
  - intros H; right; exact (IH _ _ H).
Qed.

Lemma translate_level_found (input level d m f i v : Z) (l : list Z) :
  translate_scan GET_LEVEL input level d m f i l = Ok v ->
  In (to_uint input) l /\
  exists j, (j < length (run_heads_from (Some f) l))%nat /\
    v = to_uint (if negb (d =? 0) then to_ulong (i + Z.of_nat j)
                 else to_ulong (m - (i + Z.of_nat j))).
Proof.
  revert f i; induction l as [|p l IH]; intros f i; simpl; [discriminate|].
  destruct (f =? p) eqn:Hfp.
  - apply Z.eqb_eq in Hfp as <-. rewrite bool_decide_true by reflexivity.
    intros H. destruct (IH _ _ H) as [Hin Hj]. split; [right; exact Hin | exact Hj].
  - apply Z.eqb_neq in Hfp. rewrite bool_decide_false by congruence.
    destruct (to_uint input =? p) eqn:Hin.
    + intros H; injection H as <-. apply Z.eqb_eq in Hin.
      split; [left; congruence|]. exists O. split; [simpl; lia|].
      rewrite Z.add_0_r. reflexivity.
    + intros H. destruct (IH _ _ H) as [Hin' [j [Hj Hv]]].
      split; [right; exact Hin'|]. exists (S j). split; [simpl; lia|].
      rewrite Hv. replace (i + Z.of_nat (S j)) with (i + 1 + Z.of_nat j) by lia.
      reflexivity.
Qed.

Lemma translate_level_absent (input level d m f i : Z) (l : list Z) :
  ~ In (to_uint input) l -> translate_scan GET_LEVEL input level d m f i l = Err EINVAL.
Proof.
  revert f i; induction l as [|p l IH]; intros f i Hin; cbn [translate_scan]; [reflexivity|].
  assert (Hin' : ~ In (to_uint input) l) by (intros H; apply Hin; right; exact H).
  destruct (f =? p); [apply IH; exact Hin'|].
  rewrite (proj2 (Z.eqb_neq (to_uint input) p))
    by (intros Heq; apply Hin; left; congruence).
  apply IH; exact Hin'.
Qed.

Lemma translate_fps_at (input level d m f i : Z) (l : list Z) (k : nat) :
  run_heads_from (Some f) l = l -> 0 <= i -> i + Z.of_nat (length l) <= ULONG_MOD ->
  (k < length l)%nat -> level = i + Z.of_nat k ->
  translate_scan GET_FPS input level d m f i l = Ok (nth k l 0).
Proof.
  revert f i k; induction l as [|p l IH]; intros f i k Hfix Hi Hlen Hk Hlv; simpl in *; [lia|].
  apply run_heads_from_fixed_cons in Hfix as [Hfp Hfix].
  rewrite (proj2 (Z.eqb_neq f p) Hfp).
  unfold to_ulong at 1. rewrite (Z.mod_small i) by lia.
  destruct k as [|k].
  - rewrite Hlv, Z.add_0_r, Z.eqb_refl. reflexivity.
  - rewrite (proj2 (Z.eqb_neq level i)) by lia.
    apply IH; [exact Hfix | lia | lia | lia | lia].
Qed.

Lemma translate_fps_out (input level d m f i : Z) (l : list Z) :
  run_heads_from (Some f) l = l -> 0 <= i -> i + Z.of_nat (length l) <= ULONG_MOD ->
  (level < i \/ i + Z.of_nat (length l) <= level) ->
  translate_scan GET_FPS input level d m f i l = Err EINVAL.
Proof.
  revert f i; induction l as [|p l IH]; intros f i Hfix Hi Hlen Hout; simpl in *; [reflexivity|].
  apply run_heads_from_fixed_cons in Hfix as [Hfp Hfix].
  rewrite (proj2 (Z.eqb_neq f p) Hfp).
  unfold to_ulong at 1. rewrite (Z.mod_small i) by lia.
  rewrite (proj2 (Z.eqb_neq level i)) by lia.
  apply IH; [exact Hfix | lia | lia | lia].
Qed.

Lemma translate_level_at (input level d m f i : Z) (l : list Z) (k : nat) :
  run_heads_from (Some f) l = l -> NoDup l -> (k < length l)%nat ->
  to_uint input = nth k l 0 ->
  translate_scan GET_LEVEL input level d m f i l =
  Ok (to_uint (if negb (d =? 0) then to_ulong (i + Z.of_nat k)
               else to_ulong (m - (i + Z.of_nat k)))).
Proof.
  revert f i k; induction l as [|p l IH]; intros f i k Hfix Hnd Hk Hin; simpl in *; [lia|].
  apply run_heads_from_fixed_cons in Hfix as [Hfp Hfix].
  rewrite (proj2 (Z.eqb_neq f p) Hfp).
  destruct k as [|k].
  - rewrite Hin, Z.eqb_refl, Z.add_0_r. reflexivity.
  - apply NoDup_cons in Hnd as [Hp Hnd].
    assert (Hne : nth k l 0 <> p)
      by (intros Heq; apply Hp; rewrite <- Heq; apply list_elem_of_In, nth_In; lia).
    rewrite Hin, (proj2 (Z.eqb_neq _ _) Hne).
    rewrite (IH p (i + 1) k Hfix Hnd ltac:(lia) Hin).
    replace (i + Z.of_nat (S k)) with (i + 1 + Z.of_nat k) by lia. reflexivity.
Qed.

Lemma last_in (b : Z) (r : list Z) (x : Z) : In (List.last (b :: r) x) (b :: r).
Proof.
  revert b; induction r as [|c r IH]; intros b; [left; reflexivity|].
  change (List.last (b :: c :: r) x) with (List.last (c :: r) x). right. apply IH.
Qed.

Lemma last_cons_default (z : Z) (l : list Z) (x y : Z) :
  List.last (z :: l) x = List.last (z :: l) y.
Proof.
  revert z; induction l as [|c l IH]; intros z; [reflexivity|].
  change (List.last (z :: c :: l) x = List.last (z :: c :: l) y)
    with (List.last (c :: l) x = List.last (c :: l) y). apply IH.
Qed.

Lemma count_scan_last (f d m : Z) (l : list Z) :
  fst (fst (count_scan f d m l)) = List.last l f.
Proof.
  revert f d m; induction l as [|p l IH]; intros f d m; simpl; [reflexivity|].
  destruct (f =? p) eqn:Hfp.
  - apply Z.eqb_eq in Hfp as <-. rewrite IH. destruct l; [reflexivity|apply last_cons_default].
  - rewrite IH. destruct l; [reflexivity|apply last_cons_default].
Qed.

(** The counting scan over the valid entries counts the runs. *)
Lemma count_scan_valid (t : list isp_fps_table) :
  snd (count_scan ISP_FPS_ENTRY_INVALID (-1) 0 (valid_fps t)) =
  Z.of_nat (length (run_heads (valid_fps t))).
Proof.
  rewrite count_scan_count, run_heads_not_head by apply valid_fps_not_invalid. lia.
Qed.

(** On valid entries [a :: b :: r] without repetition, the counting scan
    ends with the direction of [a, b], the length, and an [fps] from which
    the second scan skips nothing. *)
Lemma count_scan_distinct (a b : Z) (r : list Z) :
  NoDup (a :: b :: r) -> a <> ISP_FPS_ENTRY_INVALID ->
  exists f, count_scan ISP_FPS_ENTRY_INVALID (-1) 0 (a :: b :: r) =
            (f, if a >? b then 1 else 0, Z.of_nat (length (a :: b :: r))) /\
            run_heads_from (Some f) (a :: b :: r) = a :: b :: r.
Proof.
  intros Hnd Ha. pose proof Hnd as Hnd'.
  apply NoDup_cons in Hnd' as [Ha_notin Hnd_br].
  assert (Hab : a <> b) by (intros ->; apply Ha_notin; left).
  assert (Heq : count_scan ISP_FPS_ENTRY_INVALID (-1) 0 (a :: b :: r) =
                count_scan b (if a >? b then 1 else 0) 2 r).
  { cbn [count_scan].
    rewrite (proj2 (Z.eqb_neq _ _) (not_eq_sym Ha)), (proj2 (Z.eqb_neq a b) Hab).
    rewrite (proj2 (Z.eqb_neq a ISP_FPS_ENTRY_INVALID) Ha). reflexivity. }
  pose proof (count_scan_last ISP_FPS_ENTRY_INVALID (-1) 0 (a :: b :: r)) as Hl.
  pose proof (count_scan_count ISP_FPS_ENTRY_INVALID (-1) 0 (a :: b :: r)) as Hc.
  rewrite Heq in Hl, Hc |- *.
  pose proof (count_scan_descend_fixed b (if a >? b then 1 else 0) 2 r) as Hd.
  destruct (count_scan b _ _ r) as [[f d] m] eqn:Hcs.
  cbn [fst snd] in Hl, Hc, Hd. exists f.
  rewrite Hd by (destruct (a >? b); discriminate).
  assert (Hm : m = Z.of_nat (length (a :: b :: r))).
  { rewrite Hc, run_heads_from_Some.
    change (run_heads (a :: b :: r)) with (a :: run_heads_from (Some a) (b :: r)).
    rewrite (run_heads_from_nodup a (b :: r)) by exact Hnd.
    unfold skip_leading. rewrite (proj2 (Z.eqb_neq a ISP_FPS_ENTRY_INVALID) Ha).
    simpl. lia. }
  rewrite Hm. split; [reflexivity|].
  assert (Hfa : f <> a).
  { intros ->. apply Ha_notin. apply list_elem_of_In.
    rewrite Hl. change (List.last (a :: b :: r) ISP_FPS_ENTRY_INVALID)
      with (List.last (b :: r) ISP_FPS_ENTRY_INVALID). apply last_in. }
  change (run_heads_from (Some f) (a :: b :: r))
    with (if bool_decide (Some f = Some a) then run_heads_from (Some a) (b :: r)
          else a :: run_heads_from (Some a) (b :: r)).
  rewrite bool_decide_false by congruence.
  f_equal. apply run_heads_from_nodup. exact Hnd.
Qed.

(** *** Properties of the queries *)

Lemma getMaxLevel_runs (t : list isp_fps_table) :
  valid_fps t <> [] -> Z.of_nat (length (run_heads (valid_fps t))) <= UINT_MOD ->
  getMaxLevel (Some t) = Ok (Z.of_nat (length (run_heads (valid_fps t))) - 1).
Proof.
  intros Hne Hlen. unfold getMaxLevel, get_property.
  pose proof (count_scan_valid t) as Hc. pose proof (run_heads_length_pos _ Hne) as Hpos.
  destruct (count_scan ISP_FPS_ENTRY_INVALID (-1) 0 (valid_fps t)) as [[f d] m].
  cbn [snd] in Hc. subst m.
  rewrite (proj2 (Z.eqb_neq _ 0)) by lia.
  unfold to_uint. rewrite Z.mod_small by (unfold UINT_MOD in *; lia). reflexivity.
Qed.

(** [getMaxLevel] is the number of runs of equal consecutive valid fps
    values, minus one. *)
Theorem getMaxLevel_counts_runs (t : list isp_fps_table) :
  valid_fps t <> [] -> Z.of_nat (length (run_heads (valid_fps t))) <= UINT_MOD ->
  getMaxLevel (Some t) = Ok (Z.of_nat (length (run_heads (valid_fps t))) - 1).
Proof. exact (getMaxLevel_runs t). Qed.

Lemma getMaxLevel_counts_runs_witness :
  getMaxLevel (Some (table_of [(30, 0); (30, 1); (15, 2); (15, 3); (30, 4)])) = Ok 2.
Proof.
  apply (getMaxLevel_counts_runs (table_of [(30, 0); (30, 1); (15, 2); (15, 3); (30, 4)])).
  - discriminate.
  - vm_compute. discriminate.
Defined.

Lemma levelToFps_distinct (t : list isp_fps_table) (L : Z) :
  NoDup (valid_fps t) -> (2 <= length (valid_fps t))%nat ->
  Z.of_nat (length (valid_fps t)) < 2 ^ 31 -> 0 <= L < 2 ^ 31 ->
  levelToFps (Some t) L =
  if L <? Z.of_nat (length (valid_fps t))
  then Ok (nth (Z.to_nat L) (valid_fps t) 0) else Err EINVAL.
Proof.
  intros Hnd Hn Hlen HL. unfold levelToFps, get_property.
  pose proof (valid_fps_not_invalid t) as Hv.
  destruct (valid_fps t) as [|a [|b r]] eqn:Ht; simpl in Hn; try lia.
  inversion Hv as [|? ? Ha _]; subst.
  destruct (count_scan_distinct a b r Hnd Ha) as [f [Hc Hfix]].
  rewrite Hc. rewrite (proj2 (Z.eqb_neq _ 0)) by (simpl; lia).
  assert (Hlv : to_ulong (to_int L) = L).
  { unfold to_int, to_ulong. rewrite (Z.mod_small L) by (unfold UINT_MOD; lia).
    destruct (L >=? 2 ^ 31) eqn:E; [apply Z.geb_le in E; lia|].
    apply Z.mod_small. unfold ULONG_MOD. lia. }
  rewrite Hlv.
  destruct (L <? Z.of_nat (length (a :: b :: r))) eqn:HLt.
  - apply Z.ltb_lt in HLt.
    apply translate_fps_at; [exact Hfix | lia | unfold ULONG_MOD; lia | lia | lia].
  - apply Z.ltb_ge in HLt.
    apply translate_fps_out; [exact Hfix | lia | unfold ULONG_MOD; lia | lia].
Qed.

(** On a table whose valid fps values are pairwise distinct, with at least
    two of them (and fewer than 2^31), [levelToFps L] returns the valid
    entry at position [L] for every [L] below their number and fails with
    -EINVAL for every larger [L] up to [INT_MAX]. *)
Theorem levelToFps_on_distinct_table (t : list isp_fps_table) (L : Z) :
  NoDup (valid_fps t) -> (2 <= length (valid_fps t))%nat ->
  Z.of_nat (length (valid_fps t)) < 2 ^ 31 -> 0 <= L < 2 ^ 31 ->
  levelToFps (Some t) L =
  if L <? Z.of_nat (length (valid_fps t))
  then Ok (nth (Z.to_nat L) (valid_fps t) 0) else Err EINVAL.
Proof. exact (levelToFps_distinct t L). Qed.

Lemma levelToFps_on_distinct_table_witness :
  levelToFps (Some (table_of [(10, 0); (20, 1); (30, 2)])) 1 = Ok 20 /\
  levelToFps (Some (table_of [(10, 0); (20, 1); (30, 2)])) 3 = Err EINVAL.
Proof.
  split.
  - apply (levelToFps_on_distinct_table (table_of [(10, 0); (20, 1); (30, 2)]) 1);
      [vm_compute; repeat constructor; set_solver | simpl; lia | simpl; lia | lia].
  - apply (levelToFps_on_distinct_table (table_of [(10, 0); (20, 1); (30, 2)]) 3);
      [vm_compute; repeat constructor; set_solver | simpl; lia | simpl; lia | lia].
Defined.

Lemma fpsToLevel_distinct (t : list isp_fps_table) :
  NoDup (valid_fps t) -> (2 <= length (valid_fps t))%nat ->
  Z.of_nat (length (valid_fps t)) < 2 ^ 31 ->
  Forall (fun x => 0 <= x < UINT_MOD) (valid_fps t) ->
  (forall k, (k < length (valid_fps t))%nat ->
     fpsToLevel (Some t) (nth k (valid_fps t) 0) =
     Ok (if nth 0 (valid_fps t) 0 >? nth 1 (valid_fps t) 0 then Z.of_nat k
         else Z.of_nat (length (valid_fps t)) - 1 - Z.of_nat k)) /\
  (forall x, 0 <= x < UINT_MOD -> ~ In x (valid_fps t) ->
     fpsToLevel (Some t) x = Err EINVAL).
Proof.
  intros Hnd Hn Hlen Hrange. unfold fpsToLevel, get_property.
  pose proof (valid_fps_not_invalid t) as Hv.
  destruct (valid_fps t) as [|a [|b r]] eqn:Ht; simpl in Hn; try lia.
  inversion Hv as [|? ? Ha _]; subst.
  destruct (count_scan_distinct a b r Hnd Ha) as [f [Hc Hfix]].
  rewrite Hc. rewrite (proj2 (Z.eqb_neq _ 0)) by (simpl; lia).
  split.
  - intros k Hk.
    assert (Hx : 0 <= nth k (a :: b :: r) 0 < UINT_MOD).
    { rewrite List.Forall_forall in Hrange. apply Hrange. apply nth_In. exact Hk. }
    rewrite (translate_level_at _ _ _ _ _ 0 _ k Hfix Hnd Hk)
      by (unfold to_uint; apply Z.mod_small; exact Hx).
    change (nth 0 (a :: b :: r) 0) with a. change (nth 1 (a :: b :: r) 0) with b.
    f_equal. unfold to_uint, to_ulong, UINT_MOD, ULONG_MOD.
    destruct (a >? b); simpl negb; cbn iota.
    + rewrite Z.add_0_l, (Z.mod_small (Z.of_nat k)) by lia. apply Z.mod_small. lia.
    + rewrite Z.add_0_l, (Z.mod_small (_ - 1 - _)) by lia. apply Z.mod_small. lia.
  - intros x Hx Hnin. apply translate_level_absent.
    unfold to_uint. rewrite Z.mod_small by exact Hx. exact Hnin.
Qed.

(** On a table whose valid fps values are pairwise distinct [unsigned int]
    values, at least two and fewer than 2^31 of them: [fpsToLevel] of the
    entry at position [k] is [k] when the first entry is above the second
    (descending table) and [maxLevel - k] otherwise; an fps that is not in
    the table gives -EINVAL. *)
Theorem fpsToLevel_on_distinct_table (t : list isp_fps_table) :
  NoDup (valid_fps t) -> (2 <= length (valid_fps t))%nat ->
  Z.of_nat (length (valid_fps t)) < 2 ^ 31 ->
  Forall (fun x => 0 <= x < UINT_MOD) (valid_fps t) ->
  (forall k, (k < length (valid_fps t))%nat ->
     fpsToLevel (Some t) (nth k (valid_fps t) 0) =
     Ok (if nth 0 (valid_fps t) 0 >? nth 1 (valid_fps t) 0 then Z.of_nat k
         else Z.of_nat (length (valid_fps t)) - 1 - Z.of_nat k)) /\
  (forall x, 0 <= x < UINT_MOD -> ~ In x (valid_fps t) ->
     fpsToLevel (Some t) x = Err EINVAL).
Proof. exact (fpsToLevel_distinct t). Qed.

Lemma fpsToLevel_on_distinct_table_witness :
  fpsToLevel (Some (table_of [(10, 0); (20, 1); (30, 2)])) 10 = Ok 2 /\
  fpsToLevel (Some (table_of [(10, 0); (20, 1); (30, 2)])) 25 = Err EINVAL.
Proof.
  assert (H := fpsToLevel_on_distinct_table (table_of [(10, 0); (20, 1); (30, 2)])
                 ltac:(vm_compute; repeat constructor; set_solver)
                 ltac:(simpl; lia) ltac:(simpl; lia)
                 ltac:(cbn; repeat constructor; unfold UINT_MOD; lia)).
  split.
  - apply (proj1 H 0%nat). simpl. lia.
  - apply (proj2 H 25); [unfold UINT_MOD; lia | simpl; lia].
Defined.

(** Round trip on such a table: for every level [L] up to [maxLevel],
    [levelToFps L] succeeds with some fps, and [fpsToLevel] of that fps is
    [L] on a descending table and [maxLevel - L] on an ascending one. *)
Theorem roundtrip_on_distinct_table (t : list isp_fps_table) (L : Z) :
  NoDup (valid_fps t) -> (2 <= length (valid_fps t))%nat ->
  Z.of_nat (length (valid_fps t)) < 2 ^ 31 ->
  Forall (fun x => 0 <= x < UINT_MOD) (valid_fps t) ->
  0 <= L < Z.of_nat (length (valid_fps t)) ->
  exists v, levelToFps (Some t) L = Ok v /\
    fpsToLevel (Some t) v =
    Ok (if nth 0 (valid_fps t) 0 >? nth 1 (valid_fps t) 0 then L
        else Z.of_nat (length (valid_fps t)) - 1 - L).
Proof.
  intros Hnd Hn Hlen Hrange HL.
  exists (nth (Z.to_nat L) (valid_fps t) 0). split.
  - rewrite levelToFps_distinct by (assumption || lia).
    rewrite (proj2 (Z.ltb_lt _ _)) by lia. reflexivity.
  - rewrite (proj1 (fpsToLevel_distinct t Hnd Hn Hlen Hrange) (Z.to_nat L)) by lia.
    rewrite Z2Nat.id by lia. reflexivity.
Qed.

Lemma roundtrip_on_distinct_table_witness :
  exists v, levelToFps (Some (table_of [(10, 0); (20, 1); (30, 2)])) 0 = Ok v /\
    fpsToLevel (Some (table_of [(10, 0); (20, 1); (30, 2)])) v = Ok 2.
Proof.
  apply (roundtrip_on_distinct_table (table_of [(10, 0); (20, 1); (30, 2)]) 0).
  - vm_compute; repeat constructor; set_solver.
  - simpl; lia.
  - simpl; lia.
  - cbn; repeat constructor; unfold UINT_MOD; lia.
  - simpl; lia.
Defined.

Lemma valid_fps_not_end (t : list isp_fps_table) :
  Forall (fun x => x <> ISP_FPS_TABLE_END) (valid_fps t).
Proof.
  induction t as [|e t IH]; simpl; [constructor|].
  destruct (fps e =? ISP_FPS_TABLE_END) eqn:He; [constructor|].
  destruct (fps e =? ISP_FPS_ENTRY_INVALID); [exact IH|].
  constructor; [apply Z.eqb_neq; exact He | exact IH].
Qed.

(** Whatever [get_property] answers to GET_FPS is the fps of a valid entry
    before the terminator: never the invalid marker, never the terminator,
    whatever the level asked. *)
Theorem levelToFps_result_in_table (table : option (list isp_fps_table)) (isp lv v : Z) :
  get_property table isp lv GET_FPS = Ok v ->
  exists t, table = Some t /\ In v (valid_fps t) /\
    v <> ISP_FPS_ENTRY_INVALID /\ v <> ISP_FPS_TABLE_END.
Proof.
  destruct table as [t|]; [|discriminate]. unfold get_property.
  destruct (count_scan ISP_FPS_ENTRY_INVALID (-1) 0 (valid_fps t)) as [[f d] m].
  destruct (m =? 0); [discriminate|].
  intros H. apply translate_fps_in in H.
  exists t. split; [reflexivity|]. split; [exact H|].
  pose proof (valid_fps_not_invalid t) as Hi. pose proof (valid_fps_not_end t) as He.
  rewrite List.Forall_forall in Hi, He. split; [apply Hi | apply He]; exact H.
Qed.

Lemma levelToFps_result_in_table_witness :
  exists t, Some (table_of [(10, 0); (20, 1)]) = Some t /\ In 20 (valid_fps t) /\
    20 <> ISP_FPS_ENTRY_INVALID /\ 20 <> ISP_FPS_TABLE_END.
Proof.
  apply (levelToFps_result_in_table (Some (table_of [(10, 0); (20, 1)])) 0 1 20).
  vm_compute. reflexivity.
Defined.

Lemma fpsToLevel_bounded (t : list isp_fps_table) (x v : Z) :
  Z.of_nat (length (run_heads (valid_fps t))) <= UINT_MOD ->
  fpsToLevel (Some t) x = Ok v ->
  In (to_uint x) (valid_fps t) /\
  getMaxLevel (Some t) = Ok (Z.of_nat (length (run_heads (valid_fps t))) - 1) /\
  0 <= v <= Z.of_nat (length (run_heads (valid_fps t))) - 1.
Proof.
  intros Hlen. unfold fpsToLevel, getMaxLevel, get_property.
  pose proof (count_scan_valid t) as Hc.
  destruct (count_scan ISP_FPS_ENTRY_INVALID (-1) 0 (valid_fps t)) as [[f d] m].
  cbn [snd] in Hc. subst m.
  destruct (Z.of_nat (length (run_heads (valid_fps t))) =? 0) eqn:H0; [discriminate|].
  apply Z.eqb_neq in H0.
  intros H. apply translate_level_found in H as [Hin [j [Hj Hv]]].
  pose proof (run_heads_skip_length f (valid_fps t)) as Hs.
  split; [exact Hin|]. split.
  - unfold to_uint. rewrite Z.mod_small by (unfold UINT_MOD in *; lia). reflexivity.
  - subst v. unfold to_uint, to_ulong, UINT_MOD, ULONG_MOD in *.
    destruct (negb (d =? 0)).
    + rewrite Z.add_0_l, (Z.mod_small (Z.of_nat j)) by lia.
      rewrite Z.mod_small by lia. lia.
    + rewrite Z.add_0_l, (Z.mod_small (_ - 1 - _)) by lia.
      rewrite Z.mod_small by lia. lia.
Qed.

(** A level [fpsToLevel] returns is a level of the table: the fps asked
    (as an [unsigned int]) is a valid entry, and the level lies between 0
    and the [getMaxLevel] of the table, provided the number of runs fits
    in an [unsigned int]. *)
Theorem fpsToLevel_result_bounded (t : list isp_fps_table) (x v : Z) :
  Z.of_nat (length (run_heads (valid_fps t))) <= UINT_MOD ->
  fpsToLevel (Some t) x = Ok v ->
  In (to_uint x) (valid_fps t) /\
  getMaxLevel (Some t) = Ok (Z.of_nat (length (run_heads (valid_fps t))) - 1) /\
  0 <= v <= Z.of_nat (length (run_heads (valid_fps t))) - 1.
Proof. exact (fpsToLevel_bounded t x v). Qed.

Lemma fpsToLevel_result_bounded_witness :
  In (to_uint 15) (valid_fps (table_of [(30, 0); (30, 1); (15, 2); (7, 3)])) /\
  getMaxLevel (Some (table_of [(30, 0); (30, 1); (15, 2); (7, 3)])) = Ok 2 /\
  0 <= 1 <= 2.
Proof.
  apply (fpsToLevel_result_bounded (table_of [(30, 0); (30, 1); (15, 2); (7, 3)]) 15 1).
  - vm_compute. discriminate.
  - vm_compute. reflexivity.
Defined.

(** *** Properties of the callbacks *)

Lemma get_max_state_runs (t : list isp_fps_table) (state : Z) :
  Z.of_nat (length (run_heads (valid_fps t))) <= UINT_MOD ->
  let n := Z.of_nat (length (run_heads (valid_fps t))) in
  isp_get_max_state (Some t) state =
  if n =? 0 then (- errno_val EINVAL, state)
  else (0, if n =? 1 then state else n - 1).
Proof.
  intros Hlen n. unfold isp_get_max_state, get_property.
  pose proof (count_scan_valid t) as Hc.
  destruct (count_scan ISP_FPS_ENTRY_INVALID (-1) 0 (valid_fps t)) as [[f d] m].
  cbn [snd] in Hc. subst m. fold n. fold n in Hlen.
  destruct (n =? 0) eqn:H0; [reflexivity|]. apply Z.eqb_neq in H0.
  assert (Hn : 0 <= n) by (subst n; lia).
  unfold to_uint. rewrite Z.mod_small by (unfold UINT_MOD in *; lia).
  cbn [ret_of]. f_equal.
  destruct (n =? 1) eqn:H1.
  - apply Z.eqb_eq in H1. rewrite H1. reflexivity.
  - apply Z.eqb_neq in H1. rewrite (proj2 (Z.gtb_lt _ _)) by lia. reflexivity.
Qed.

Lemma get_max_state_none (state : Z) :
  isp_get_max_state None state = (- errno_val EINVAL, state).
Proof. reflexivity. Qed.

(** [isp_get_max_state] stores the number of runs of valid fps values minus
    one, and returns 0, when there are at least two runs; with a single run
    it returns 0 and leaves [*state] as it was (the count 0 is not
    stored); without a table or without a valid entry it returns -EINVAL
    and leaves [*state] as it was. *)
Theorem isp_get_max_state_spec (t : list isp_fps_table) (state : Z) :
  Z.of_nat (length (run_heads (valid_fps t))) <= UINT_MOD ->
  isp_get_max_state None state = (- errno_val EINVAL, state) /\
  isp_get_max_state (Some t) state =
  (if Z.of_nat (length (run_heads (valid_fps t))) =? 0 then (- errno_val EINVAL, state)
   else (0, if Z.of_nat (length (run_heads (valid_fps t))) =? 1 then state
            else Z.of_nat (length (run_heads (valid_fps t))) - 1)).
Proof.
  intros Hlen. split; [apply get_max_state_none | exact (get_max_state_runs t state Hlen)].
Qed.

Lemma isp_get_max_state_spec_witness :
  isp_get_max_state None 5 = (-22, 5) /\
  isp_get_max_state (Some (table_of [(30, 0); (30, 1)])) 5 = (0, 5).
Proof.
  apply (isp_get_max_state_spec (table_of [(30, 0); (30, 1)]) 5).
  vm_compute. discriminate.
Defined.

Lemma set_cur_state_seq_app_cons (d : isp_cooling_device) (l : Z) (ls : list Z) :
  set_cur_state_seq d (l :: ls) =
  let '(_, d1, ns1) := isp_set_cur_state d l in
  let '(d2, ns2) := set_cur_state_seq d1 ls in (d2, ns1 ++ ns2).
Proof. reflexivity. Qed.

(** A sequence of [isp_set_cur_state] calls with states that fit an
    [unsigned int] sends one notification for each state that differs from
    the one before it (the first compared with the device's state), ends
    in the last state asked, and keeps the device's [id] and [isp_val]. *)
Theorem set_cur_state_seq_notifies_changes (d : isp_cooling_device) (ls : list Z) :
  Forall (fun x => 0 <= x < UINT_MOD) ls ->
  snd (set_cur_state_seq d ls) =
    map (pair ISP_THROTTLING) (run_heads_from (Some (isp_state d)) ls) /\
  isp_state (fst (set_cur_state_seq d ls)) = List.last ls (isp_state d) /\
  id (fst (set_cur_state_seq d ls)) = id d /\
  isp_val (fst (set_cur_state_seq d ls)) = isp_val d.
Proof.
  revert d; induction ls as [|l ls IH]; intros d Hls; [simpl; auto|].
  inversion Hls as [|? ? Hl Hls']; subst.
  rewrite set_cur_state_seq_app_cons.
  unfold isp_set_cur_state, isp_apply_cooling.
  change (run_heads_from (Some (isp_state d)) (l :: ls))
    with (if bool_decide (Some (isp_state d) = Some l) then run_heads_from (Some l) ls
          else l :: run_heads_from (Some l) ls).
  destruct (isp_state d =? l) eqn:Hdl.
  - apply Z.eqb_eq in Hdl. rewrite bool_decide_true by congruence.
    destruct (IH d Hls') as [Hn [Hs [Hi Hv]]].
    destruct (set_cur_state_seq d ls) as [d2 ns2] eqn:Hq. cbn [fst snd] in *.
    rewrite <- Hdl. split; [exact Hn|]. split; [|auto].
    rewrite Hs. destruct ls; reflexivity.
  - apply Z.eqb_neq in Hdl. rewrite bool_decide_false by congruence.
    set (d1 := {| id := id d; isp_state := to_uint l; isp_val := isp_val d |}).
    destruct (IH d1 Hls') as [Hn [Hs [Hi Hv]]].
    destruct (set_cur_state_seq d1 ls) as [d2 ns2] eqn:Hq. cbn [fst snd] in *.
    assert (Hd1 : isp_state d1 = l) by (unfold d1, to_uint; cbn; apply Z.mod_small; exact Hl).
    rewrite Hd1 in Hn, Hs. split; [simpl; rewrite Hn; reflexivity|].
    split; [|split; [exact Hi | exact Hv]].
    rewrite Hs. destruct ls as [|z ls]; [reflexivity|].
    change (List.last (l :: z :: ls) (isp_state d)) with (List.last (z :: ls) (isp_state d)).
    apply last_cons_default.
Qed.

Lemma set_cur_state_seq_notifies_changes_witness :
  snd (set_cur_state_seq (mk_isp_cooling_device 0 1 0) [1; 2; 2; 0]) =
    [(ISP_THROTTLING, 2); (ISP_THROTTLING, 0)] /\
  isp_state (fst (set_cur_state_seq (mk_isp_cooling_device 0 1 0) [1; 2; 2; 0])) = 0 /\
  id (fst (set_cur_state_seq (mk_isp_cooling_device 0 1 0) [1; 2; 2; 0])) = 0 /\
  isp_val (fst (set_cur_state_seq (mk_isp_cooling_device 0 1 0) [1; 2; 2; 0])) = 0.
Proof.
  apply (set_cur_state_seq_notifies_changes (mk_isp_cooling_device 0 1 0) [1; 2; 2; 0]).
  repeat constructor; unfold UINT_MOD; lia.
Defined.

(** *** Properties of parse_ect_cooling_level *)

Lemma to_int_small (x : Z) : 0 <= x < 2 ^ 31 -> to_int x = x.
Proof.
  intros Hx. unfold to_int, UINT_MOD. rewrite Z.mod_small by lia.
  destruct (x >=? 2 ^ 31) eqn:E; [apply Z.geb_le in E; lia | reflexivity].
Qed.

Lemma max_state_bound (table : option (list isp_fps_table)) :
  (forall t, table = Some t -> Z.of_nat (length (run_heads (valid_fps t))) < 2 ^ 31) ->
  0 <= snd (isp_get_max_state table 0) < 2 ^ 31 /\
  (forall t, table = Some t -> (1 <= length (run_heads (valid_fps t)))%nat ->
     snd (isp_get_max_state table 0) = Z.of_nat (length (run_heads (valid_fps t))) - 1).
Proof.
  intros Hb. destruct table as [t|]; [|split; [simpl; lia | discriminate]].
  specialize (Hb t eq_refl).
  rewrite get_max_state_runs by (unfold UINT_MOD; lia).
  split.
  - destruct (_ =? 0) eqn:H0; [simpl; lia|]. apply Z.eqb_neq in H0.
    destruct (_ =? 1); simpl; lia.
  - intros t' Ht' Hpos. injection Ht' as <-.
    rewrite (proj2 (Z.eqb_neq _ 0)) by lia.
    destruct (_ =? 1) eqn:H1; [apply Z.eqb_eq in H1; simpl; lia | reflexivity].
Qed.

(** The [unsigned long] that one round of [parse_ect_cooling_level] stores
    into [upper] lies between 0 and the maximum state. *)
Lemma parse_level_bound (table : option (list isp_fps_table)) (fr : Z) :
  (forall t, table = Some t -> Z.of_nat (length (run_heads (valid_fps t))) < 2 ^ 31) ->
  let max_level := snd (isp_get_max_state table 0) in
  let level := to_int (isp_cooling_get_level table 0 fr) in
  let level := if to_ulong level =? THERMAL_CSTATE_INVALID then to_int max_level else level in
  0 <= to_ulong level <= max_level.
Proof.
  intros Hb max_level level level'.
  destruct (max_state_bound table Hb) as [HM HMeq]. fold max_level in HM, HMeq.
  subst level' level. unfold isp_cooling_get_level.
  destruct (get_property table 0 fr GET_LEVEL) as [v|e] eqn:Hg.
  - destruct table as [t|]; [|discriminate].
    specialize (Hb t eq_refl).
    destruct (fpsToLevel_bounded t fr v ltac:(unfold UINT_MOD; lia) Hg) as [Hin [_ Hv]].
    assert (Hpos : (1 <= length (run_heads (valid_fps t)))%nat)
      by (apply run_heads_length_pos; intros Hn; rewrite Hn in Hin; destruct Hin).
    rewrite (HMeq t eq_refl Hpos). rewrite to_int_small by lia.
    unfold to_ulong, THERMAL_CSTATE_INVALID, ULONG_MOD.
    rewrite (Z.mod_small v) by lia.
    rewrite (proj2 (Z.eqb_neq v _)) by lia. cbv iota.
    rewrite (Z.mod_small v) by lia. lia.
  - change (to_int THERMAL_CSTATE_INVALID) with (-1).
    change (to_ulong (-1) =? THERMAL_CSTATE_INVALID) with true. cbv iota.
    rewrite to_int_small by lia. unfold to_ulong, ULONG_MOD.
    rewrite Z.mod_small by lia. lia.
Qed.

Lemma set_upper_within (tz : string) (i : nat) (v M : Z) (insts : list thermal_instance) :
  0 <= v <= M ->
  Forall2 (fun a b => inst_tz b = inst_tz a /\ inst_trip b = inst_trip a /\
                      (upper b = upper a \/ 0 <= upper b <= M))
    insts (set_upper tz i v insts).
Proof.
  intros Hv. induction insts as [|a insts IH]; simpl; [constructor|].
  destruct (bool_decide (inst_tz a = tz) && (inst_trip a =? i)%nat).
  - constructor; [simpl; auto|]. clear IH. induction insts; constructor; auto.
  - constructor; [auto | exact IH].
Qed.

Lemma within_trans (M : Z) (xs ys zs : list thermal_instance) :
  Forall2 (fun a b => inst_tz b = inst_tz a /\ inst_trip b = inst_trip a /\
                      (upper b = upper a \/ 0 <= upper b <= M)) xs ys ->
  Forall2 (fun a b => inst_tz b = inst_tz a /\ inst_trip b = inst_trip a /\
                      (upper b = upper a \/ 0 <= upper b <= M)) ys zs ->
  Forall2 (fun a b => inst_tz b = inst_tz a /\ inst_trip b = inst_trip a /\
                      (upper b = upper a \/ 0 <= upper b <= M)) xs zs.
Proof.
  intros H1. revert zs. induction H1 as [|x y xs ys Hxy Hxys IH]; intros zs H2;
    inversion H2 as [|? z ? zs' Hyz Hyzs]; subst; constructor; [|exact (IH _ Hyzs)].
  destruct Hxy as [Ht1 [Hr1 Hu1]], Hyz as [Ht2 [Hr2 Hu2]].
  split; [congruence|]. split; [congruence|]. destruct Hu2 as [Hu2|Hu2]; [|right; exact Hu2].
  rewrite Hu2. exact Hu1.
Qed.

Lemma within_refl (M : Z) (xs : list thermal_instance) :
  Forall2 (fun a b => inst_tz b = inst_tz a /\ inst_trip b = inst_trip a /\
                      (upper b = upper a \/ 0 <= upper b <= M)) xs xs.
Proof. induction xs; constructor; auto. Qed.

Lemma parse_ranges_within (table : option (list isp_fps_table)) (tz : string)
    (rs : list ect_ap_thermal_range) :
  (forall t, table = Some t -> Z.of_nat (length (run_heads (valid_fps t))) < 2 ^ 31) ->
  forall i insts,
  Forall2 (fun a b => inst_tz b = inst_tz a /\ inst_trip b = inst_trip a /\
                      (upper b = upper a \/ 0 <= upper b <= snd (isp_get_max_state table 0)))
    insts (parse_ranges table tz i rs insts).
Proof.
  intros Hb. induction rs as [|r rs IH]; intros i insts; simpl; [apply within_refl|].
  destruct (get_thermal_instance tz i insts); [|apply within_refl].
  eapply within_trans; [|apply IH].
  apply set_upper_within. apply (parse_level_bound table (max_frequency r) Hb).
Qed.

(** [parse_ect_cooling_level] always returns 0 and changes nothing but
    [upper] limits: every instance keeps its zone and trip, and its
    [upper] is either left alone or set to a level between 0 and the
    device's maximum state, provided the table has fewer than 2^31 runs
    of valid fps values. *)
Theorem parse_ect_cooling_level_bounded (table : option (list isp_fps_table))
    (thermal_block : option ect_thermal_block) (tz_name : string)
    (insts : list thermal_instance) :
  (forall t, table = Some t -> Z.of_nat (length (run_heads (valid_fps t))) < 2 ^ 31) ->
  fst (parse_ect_cooling_level table thermal_block tz_name insts) = 0 /\
  Forall2 (fun a b => inst_tz b = inst_tz a /\ inst_trip b = inst_trip a /\
                      (upper b = upper a \/ 0 <= upper b <= snd (isp_get_max_state table 0)))
    insts (snd (parse_ect_cooling_level table thermal_block tz_name insts)).
Proof.
  intros Hb. unfold parse_ect_cooling_level.
  destruct (find_tz tz_name insts) as [tz|]; [|split; [reflexivity | apply within_refl]].
  destruct thermal_block as [block|]; [|split; [reflexivity | apply within_refl]].
  destruct (ect_ap_thermal_get_function block tz_name) as [function|];
    [|split; [reflexivity | apply within_refl]].
  split; [reflexivity|]. apply parse_ranges_within. exact Hb.
Qed.

Lemma parse_ect_cooling_level_bounded_witness :
  fst (parse_ect_cooling_level (Some desc_table)
         (Some [mk_ect_ap_thermal_function "cpu0"
                  [mk_ect_ap_thermal_range 60 15; mk_ect_ap_thermal_range 90 99]])
         "cpu0" [mk_thermal_instance "cpu0" 0 7; mk_thermal_instance "cpu0" 1 7]) = 0 /\
  Forall2 (fun a b => inst_tz b = inst_tz a /\ inst_trip b = inst_trip a /\
                      (upper b = upper a \/ 0 <= upper b <= snd (isp_get_max_state (Some desc_table) 0)))
    [mk_thermal_instance "cpu0" 0 7; mk_thermal_instance "cpu0" 1 7]
    (snd (parse_ect_cooling_level (Some desc_table)
         (Some [mk_ect_ap_thermal_function "cpu0"
                  [mk_ect_ap_thermal_range 60 15; mk_ect_ap_thermal_range 90 99]])
         "cpu0" [mk_thermal_instance "cpu0" 0 7; mk_thermal_instance "cpu0" 1 7])).
Proof.
  apply parse_ect_cooling_level_bounded.
  intros t Ht. injection Ht as <-. vm_compute. reflexivity.
Defined.

(** *** From the configuration to the queries *)

Lemma run_heads_from_Forall (P : Z -> Prop) (q : option Z) (l : list Z) :
  Forall P l -> Forall P (run_heads_from q l).
Proof.
  revert q; induction l as [|x l IH]; intros q Hl; simpl; [constructor|].
  inversion Hl; subst. case_bool_decide; [|constructor]; auto.
Qed.

Lemma valid_fps_entries_from (k : Z) (l : list Z) (rest : list isp_fps_table) :
  Forall (fun f => f <> ISP_FPS_TABLE_END /\ f <> ISP_FPS_ENTRY_INVALID) l ->
  valid_fps (entries_from k l ++ end_entry :: rest) = l.
Proof.
  revert k; induction l as [|x l IH]; intros k Hl; [reflexivity|].
  inversion Hl as [|? ? [Hend Hinv] Hl']; subst. simpl.
  rewrite (proj2 (Z.eqb_neq x _)) by exact Hend.
  rewrite (proj2 (Z.eqb_neq x _)) by exact Hinv.
  rewrite IH by exact Hl'. reflexivity.
Qed.

(** When every max-frequency of the "ISP" function is an [unsigned int]
    other than the terminator and the invalid marker, and the function has
    fewer than 2^32 ranges, the table [isp_cooling_table_init] builds shows
    the queries exactly the first max-frequency of each run of equal
    consecutive ranges, so that [getMaxLevel] is the number of those runs
    minus one (and -EINVAL for a function without ranges). *)
Theorem table_init_feeds_queries (block : ect_thermal_block)
    (function : ect_ap_thermal_function) :
  ect_ap_thermal_get_function block "ISP" = Some function ->
  Forall (fun f => 0 <= f < UINT_MOD /\ f <> ISP_FPS_TABLE_END /\ f <> ISP_FPS_ENTRY_INVALID)
    (map max_frequency (range_list function)) ->
  Z.of_nat (num_of_range function) < UINT_MOD ->
  exists t, isp_cooling_table_init (Some block) true = Init_ok t /\
    valid_fps t = run_heads (map max_frequency (range_list function)) /\
    getMaxLevel (Some t) =
    match range_list function with
    | [] => Err EINVAL
    | _ => Ok (Z.of_nat (length (run_heads (map max_frequency (range_list function)))) - 1)
    end.
Proof.
  intros Hf Hfs Hnum.
  set (fs := map max_frequency (range_list function)) in *.
  assert (Hkept : run_heads_from (Some 4294967295) fs = run_heads fs).
  { apply run_heads_not_head. eapply List.Forall_impl; [|exact Hfs].
    intros x [_ [_ Hx]]. exact Hx. }
  eexists. split.
  { apply table_init_ok; [exact Hf|].
    apply List.Forall_forall. intros r Hr. rewrite List.Forall_forall in Hfs.
    apply (Hfs (max_frequency r)). unfold fs. apply in_map. exact Hr. }
  cbv zeta. fold fs. rewrite Hkept.
  assert (Hv : valid_fps (entries_from 0 (run_heads fs) ++ end_entry ::
                 replicate (num_of_range function - length (run_heads fs)) zero_entry)
               = run_heads fs).
  { apply valid_fps_entries_from. unfold run_heads. apply run_heads_from_Forall.
    eapply List.Forall_impl; [|exact Hfs]. intros x [_ H]. exact H. }
  split; [exact Hv|].
  pose proof (run_heads_from_length None fs) as Hlen. fold (run_heads fs) in Hlen.
  assert (Hfl : length fs = num_of_range function)
    by (unfold fs, num_of_range; apply length_map).
  destruct (range_list function) as [|r rs] eqn:Hr.
  - unfold getMaxLevel, get_property. rewrite Hv. reflexivity.
  - assert (Hrr : run_heads (run_heads fs) = run_heads fs)
      by exact (run_heads_from_run_heads None fs).
    rewrite getMaxLevel_runs; rewrite Hv.
    + rewrite Hrr. reflexivity.
    + subst fs. simpl. discriminate.
    + rewrite Hrr. lia.
Qed.

Lemma table_init_feeds_queries_witness :
  exists t, isp_cooling_table_init (Some (cfg [30; 30; 15; 7; 7])) true = Init_ok t /\
    valid_fps t = [30; 15; 7] /\ getMaxLevel (Some t) = Ok 2.
Proof.
  apply (table_init_feeds_queries (cfg [30; 30; 15; 7; 7])
           (mk_ect_ap_thermal_function "ISP"
              (map (fun f => mk_ect_ap_thermal_range 0 f) [30; 30; 15; 7; 7]))).
  - reflexivity.
  - cbn. repeat constructor; unfold UINT_MOD, ISP_FPS_TABLE_END, ISP_FPS_ENTRY_INVALID; lia.
  - cbn. unfold UINT_MOD. lia.
Defined.

(** *** Registration *)

Lemma lookup_map_seq (a n i : nat) (x : Z) :
  map Z.of_nat (seq a n) !! i = Some x -> x = Z.of_nat (a + i) /\ (i < n)%nat.
Proof.
  revert a i; induction n as [|n IH]; intros a i H; [discriminate|].
  destruct i as [|i]; simpl in H.
  - injection H as <-. split; [f_equal; lia | lia].
  - destruct (IH (S a) i H) as [-> Hi]. split; [f_equal; lia | lia].
Qed.

Lemma lookup_map_seq_in (a n i : nat) :
  (i < n)%nat -> map Z.of_nat (seq a n) !! i = Some (Z.of_nat (a + i)).
Proof.
  revert a i; induction n as [|n IH]; intros a i H; [lia|].
  destruct i as [|i]; simpl.
  - f_equal. f_equal. lia.
  - rewrite IH by lia. f_equal. f_equal. lia.
Qed.

(** What a successful [idr_alloc] gives: the smallest id not in use. *)
Lemma idr_alloc_ok (ids ids' : gset Z) (mem_ok : bool) (k : Z) :
  idr_alloc ids mem_ok = (k, ids') -> 0 <= k ->
  mem_ok = true /\ (k ∉ ids) /\ k <= INT_MAX /\ ids' = {[k]} ∪ ids /\
  (forall j, 0 <= j < k -> j ∈ ids).
Proof.
  unfold idr_alloc. destruct mem_ok; [|simpl; intros H; injection H as <- _; simpl; lia].
  cbn [negb]. destruct (list_find _ _) as [[i k']|] eqn:Hf; [|intros H; injection H as <- _; unfold ENOSPC_val; lia].
  apply list_find_Some in Hf as [Hi [Hk Hleast]].
  destruct (k' >? INT_MAX) eqn:Hmax;
    [intros H; injection H as <- _; unfold ENOSPC_val; lia|].
  intros H; injection H as <- <-. intros _. rewrite Z.gtb_ltb in Hmax. apply Z.ltb_ge in Hmax.
  destruct (lookup_map_seq _ _ _ _ Hi) as [Hk' Hin]. simpl in Hk'.
  split; [reflexivity|]. split; [exact Hk|]. split; [exact Hmax|]. split; [reflexivity|].
  intros j Hj. destruct (decide (j ∈ ids)) as [Hj'|Hj']; [exact Hj'|].
  exfalso. apply (Hleast (Z.to_nat j) j).
  - replace j with (Z.of_nat (0 + Z.to_nat j)) at 2 by lia.
    apply lookup_map_seq_in. lia.
  - lia.
  - exact Hj'.
Qed.

Lemma idr_alloc_err (ids ids' : gset Z) (mem_ok : bool) (k : Z) :
  idr_alloc ids mem_ok = (k, ids') -> k < 0 -> ids' = ids.
Proof.
  unfold idr_alloc. destruct mem_ok; [|intros H; injection H as _ <-; reflexivity].
  cbn [negb]. destruct (list_find _ _) as [[i k']|] eqn:Hf;
    [|intros H; injection H as _ <-; reflexivity].
  apply list_find_Some in Hf as [Hi _].
  destruct (lookup_map_seq _ _ _ _ Hi) as [Hk' _].
  destruct (k' >? INT_MAX); [intros H; injection H as _ <-; reflexivity|].
  intros H; injection H as <- _. lia.
Qed.

Lemma register_helper_err (g g' : isp_globals) (kz idm : bool) (reg_err : option Z) (c : Z) :
  isp_cooling_register_helper g kz idm reg_err = (Reg_err c, g') ->
  g' = g /\ (c = - errno_val ENOMEM \/ c = - errno_val EINVAL \/ reg_err = Some c).
Proof.
  unfold isp_cooling_register_helper.
  destruct kz; [|simpl; intros H; injection H as <- <-; auto].
  simpl negb; cbv iota. unfold get_idr.
  destruct (idr_alloc (isp_idr g) idm) as [ret ids] eqn:Ha.
  destruct (ret <? 0) eqn:Hneg.
  - apply Z.ltb_lt in Hneg. cbn iota beta.
    rewrite (proj2 (Z.eqb_neq ret 0)) by lia. cbn [negb].
    intros H; injection H as <- <-; auto.
  - apply Z.ltb_ge in Hneg.
    destruct (idr_alloc_ok _ _ _ _ Ha Hneg) as [_ [Hfresh [_ [-> _]]]].
    cbn. destruct reg_err as [e|]; [|discriminate].
    intros H; injection H as <- <-. split; [|auto].
    destruct g as [ids0 cnt]. unfold release_idr. cbn in *. f_equal.
    apply leibniz_equiv. set_solver.
Qed.

Lemma register_helper_ok (g g' : isp_globals) (kz idm : bool) (reg_err : option Z)
    (dev : isp_cooling_device) :
  isp_cooling_register_helper g kz idm reg_err = (Reg_ok dev, g') ->
  kz = true /\ idm = true /\ reg_err = None /\
  (id dev ∉ isp_idr g) /\ 0 <= id dev <= INT_MAX /\
  (forall j, 0 <= j < id dev -> j ∈ isp_idr g) /\
  isp_idr g' = {[id dev]} ∪ isp_idr g /\
  isp_dev_count g' = to_uint (isp_dev_count g + 1) /\
  isp_state dev = 0 /\ isp_val dev = 0.
Proof.
  unfold isp_cooling_register_helper.
  destruct kz; [|discriminate]. simpl negb; cbv iota. unfold get_idr.
  destruct (idr_alloc (isp_idr g) idm) as [ret ids] eqn:Ha.
  destruct (ret <? 0) eqn:Hneg.
  { apply Z.ltb_lt in Hneg. cbn iota beta.
    rewrite (proj2 (Z.eqb_neq ret 0)) by lia. cbn [negb]. discriminate. }
  apply Z.ltb_ge in Hneg.
  destruct (idr_alloc_ok _ _ _ _ Ha Hneg) as [Hm [Hfresh [Hmax [-> Hleast]]]].
  cbn. destruct reg_err as [e|]; [discriminate|].
  intros H; injection H as <- <-. cbn.
  repeat split; auto; lia.
Qed.

Lemma of_register_err (g g' : isp_globals) (np_ok kz idm : bool)
    (reg_err : option Z) (c : Z) :
  of_isp_cooling_register g np_ok kz idm reg_err = (Reg_err c, g') ->
  g' = g /\ (c = - errno_val ENOMEM \/ c = - errno_val EINVAL \/ reg_err = Some c).
Proof.
  unfold of_isp_cooling_register. destruct np_ok; cbn [negb].
  - apply register_helper_err.
  - intros H; injection H as <- <-. auto.
Qed.

(** A registration that fails leaves the driver's ids and device count as
    they were (an id taken before the thermal registration failed is
    released again), and reports -ENOMEM, -EINVAL or the error of the
    thermal registration. *)
Theorem register_failure_keeps_globals (g g' : isp_globals) (np_ok kz idm : bool)
    (reg_err : option Z) (c : Z) :
  of_isp_cooling_register g np_ok kz idm reg_err = (Reg_err c, g') ->
  g' = g /\ (c = - errno_val ENOMEM \/ c = - errno_val EINVAL \/ reg_err = Some c).
Proof. exact (of_register_err g g' np_ok kz idm reg_err c). Qed.

Lemma register_failure_keeps_globals_witness :
  mk_isp_globals {[0]} 1 = mk_isp_globals {[0]} 1 /\
  (-19 = - errno_val ENOMEM \/ -19 = - errno_val EINVAL \/ Some (-19) = Some (-19)).
Proof.
  apply (register_failure_keeps_globals (mk_isp_globals {[0]} 1) (mk_isp_globals {[0]} 1)
           true true true (Some (-19)) (-19)).
  vm_compute. reflexivity.
Defined.

(** A registration that succeeds needs every allocation and the thermal
    registration to succeed; the new device gets the smallest id not in
    use (between 0 and [INT_MAX]), which joins the ids, starts in state 0
    with [isp_val] 0, and the device count goes up by one (as an
    [unsigned int]). *)
Theorem register_success_fresh_id (g g' : isp_globals) (np_ok kz idm : bool)
    (reg_err : option Z) (dev : isp_cooling_device) :
  of_isp_cooling_register g np_ok kz idm reg_err = (Reg_ok dev, g') ->
  np_ok = true /\ kz = true /\ idm = true /\ reg_err = None /\
  (id dev ∉ isp_idr g) /\ 0 <= id dev <= INT_MAX /\
  (forall j, 0 <= j < id dev -> j ∈ isp_idr g) /\
  isp_idr g' = {[id dev]} ∪ isp_idr g /\
  isp_dev_count g' = to_uint (isp_dev_count g + 1) /\
  isp_state dev = 0 /\ isp_val dev = 0.
Proof.
  unfold of_isp_cooling_register. destruct np_ok; cbn [negb]; [|discriminate].
  intros H. split; [reflexivity|]. exact (register_helper_ok _ _ _ _ _ _ H).
Qed.

Lemma register_success_fresh_id_witness :
  (1 ∉ ({[0]} ∪ {[2]} : gset Z)) /\ (forall j, 0 <= j < 1 -> j ∈ ({[0]} ∪ {[2]} : gset Z)).
Proof.
  assert (Hr : of_isp_cooling_register (mk_isp_globals ({[0]} ∪ {[2]}) 2) true true true None
               = (Reg_ok (mk_isp_cooling_device 1 0 0),
                  mk_isp_globals ({[1]} ∪ ({[0]} ∪ {[2]})) 3))
    by (vm_compute; reflexivity).
  destruct (register_success_fresh_id _ _ _ _ _ _ _ Hr)
    as [_ [_ [_ [_ [Hfresh [_ [Hleast _]]]]]]].
  split; [exact Hfresh | exact Hleast].
Defined.

(** Unregistering the device a registration returned gives back the ids
    and the device count from before the registration, when that count is
    an [unsigned int]. *)
Theorem unregister_undoes_register (g g' : isp_globals) (np_ok kz idm : bool)
    (reg_err : option Z) (dev : isp_cooling_device) :
  of_isp_cooling_register g np_ok kz idm reg_err = (Reg_ok dev, g') ->
  0 <= isp_dev_count g < UINT_MOD ->
  isp_cooling_unregister g' (Some dev) = g.
Proof.
  unfold of_isp_cooling_register. destruct np_ok; cbn [negb]; [|discriminate].
  intros H Hc. destruct (register_helper_ok _ _ _ _ _ _ H)
    as [_ [_ [_ [Hfresh [_ [_ [Hids [Hcnt _]]]]]]]].
  destruct g as [ids cnt], g' as [ids' cnt']. cbn in *. subst ids' cnt'.
  unfold isp_cooling_unregister, release_idr. cbn. f_equal.
  - apply leibniz_equiv. set_solver.
  - unfold to_uint. rewrite Zminus_mod_idemp_l.
    replace (cnt + 1 - 1) with cnt by lia. apply Z.mod_small. exact Hc.
Qed.

Lemma unregister_undoes_register_witness :
  isp_cooling_unregister (mk_isp_globals ({[1]} ∪ ({[0]} ∪ {[2]})) 3)
    (Some (mk_isp_cooling_device 1 0 0)) = mk_isp_globals ({[0]} ∪ {[2]}) 2.
Proof.
  apply (unregister_undoes_register (mk_isp_globals ({[0]} ∪ {[2]}) 2)
           (mk_isp_globals ({[1]} ∪ ({[0]} ∪ {[2]})) 3) true true true None).
  - vm_compute. reflexivity.
  - cbn. unfold UINT_MOD. lia.
Defined.

(** *** Module initialisation *)




(** *** The levels parse_ect_cooling_level stores *)

(** The [unsigned long] one round stores: the level [fpsToLevel] gives for
    the max-frequency, or the maximum state when there is none. *)
Lemma parse_level_value (table : option (list isp_fps_table)) (fr : Z) :
  (forall t, table = Some t -> Z.of_nat (length (run_heads (valid_fps t))) < 2 ^ 31) ->
  let max_level := snd (isp_get_max_state table 0) in
  let level := to_int (isp_cooling_get_level table 0 fr) in
  let level := if to_ulong level =? THERMAL_CSTATE_INVALID then to_int max_level else level in
  to_ulong level = match fpsToLevel table fr with Ok v => v | Err _ => max_level end.
Proof.
  intros Hb max_level level level'.
  destruct (max_state_bound table Hb) as [HM HMeq]. fold max_level in HM, HMeq.
  subst level' level. unfold isp_cooling_get_level, fpsToLevel.
  destruct (get_property table 0 fr GET_LEVEL) as [v|e] eqn:Hg.
  - destruct table as [t|]; [|discriminate].
    specialize (Hb t eq_refl).
    destruct (fpsToLevel_bounded t fr v ltac:(unfold UINT_MOD; lia) Hg) as [Hin [_ Hv]].
    rewrite to_int_small by lia.
    unfold to_ulong, THERMAL_CSTATE_INVALID, ULONG_MOD.
    rewrite (Z.mod_small v) by lia.
    rewrite (proj2 (Z.eqb_neq v _)) by lia. cbv iota.
    apply Z.mod_small. lia.
  - change (to_int THERMAL_CSTATE_INVALID) with (-1).
    change (to_ulong (-1) =? THERMAL_CSTATE_INVALID) with true. cbv iota.
    rewrite to_int_small by lia. unfold to_ulong, ULONG_MOD.
    apply Z.mod_small. lia.
Qed.

Lemma get_instance_set_upper_same (tz : string) (i : nat) (v : Z)
    (insts : list thermal_instance) :
  get_thermal_instance tz i (set_upper tz i v insts) =
  option_map (fun inst => {| inst_tz := inst_tz inst; inst_trip := inst_trip inst; upper := v |})
    (get_thermal_instance tz i insts).
Proof.
  induction insts as [|a insts IH]; [reflexivity|]. simpl.
  destruct (bool_decide (inst_tz a = tz) && (inst_trip a =? i)%nat) eqn:Ha.
  - simpl. rewrite Ha. reflexivity.
  - simpl. rewrite Ha. exact IH.
Qed.

Lemma get_instance_set_upper_other (tz : string) (i j : nat) (v : Z)
    (insts : list thermal_instance) :
  j <> i -> get_thermal_instance tz j (set_upper tz i v insts) = get_thermal_instance tz j insts.
Proof.
  intros Hji. induction insts as [|a insts IH]; [reflexivity|]. simpl.
  destruct (bool_decide (inst_tz a = tz) && (inst_trip a =? i)%nat) eqn:Ha.
  - simpl. apply andb_true_iff in Ha as [Ht Hi]. apply Nat.eqb_eq in Hi.
    rewrite Ht. replace (inst_trip a =? j)%nat with false
      by (symmetry; apply Nat.eqb_neq; lia).
    rewrite andb_false_r.
    clear IH. induction insts as [|b insts IH']; [reflexivity|]. simpl.
    destruct (bool_decide (inst_tz b = tz) && (inst_trip b =? j)%nat); [reflexivity|].
    exact IH'.
  - simpl. rewrite IH. reflexivity.
Qed.

Lemma parse_ranges_below (table : option (list isp_fps_table)) (tz : string)
    (rs : list ect_ap_thermal_range) :
  forall i insts j, (j < i)%nat ->
  get_thermal_instance tz j (parse_ranges table tz i rs insts) = get_thermal_instance tz j insts.
Proof.
  induction rs as [|r rs IH]; intros i insts j Hj; [reflexivity|]. simpl.
  destruct (get_thermal_instance tz i insts); [|reflexivity].
  rewrite IH by lia. apply get_instance_set_upper_other. lia.
Qed.

Lemma parse_ranges_levels (table : option (list isp_fps_table)) (tz : string)
    (rs : list ect_ap_thermal_range) :
  (forall t, table = Some t -> Z.of_nat (length (run_heads (valid_fps t))) < 2 ^ 31) ->
  forall i insts,
  (forall k, (k < length rs)%nat -> get_thermal_instance tz (i + k) insts <> None) ->
  forall k r, rs !! k = Some r ->
  exists inst, get_thermal_instance tz (i + k) (parse_ranges table tz i rs insts) = Some inst /\
    upper inst = match fpsToLevel table (max_frequency r) with
                 | Ok v => v | Err _ => snd (isp_get_max_state table 0) end.
Proof.
  intros Hb. induction rs as [|r0 rs IH]; intros i insts Hall k r Hk; [discriminate|].
  simpl. pose proof (Hall 0%nat ltac:(simpl; lia)) as H0. rewrite Nat.add_0_r in H0.
  destruct (get_thermal_instance tz i insts) as [inst0|] eqn:Hi0; [|contradiction].
  destruct k as [|k].
  - injection Hk as <-. rewrite Nat.add_0_r, parse_ranges_below by lia.
    rewrite get_instance_set_upper_same, Hi0. cbn [option_map].
    eexists. split; [reflexivity|]. cbn [upper].
    apply (parse_level_value table (max_frequency r0) Hb).
  - replace (i + S k)%nat with (S i + k)%nat by lia.
    apply IH; [|exact Hk].
    intros k' Hk'. replace (S i + k')%nat with (i + S k')%nat by lia.
    rewrite get_instance_set_upper_other by lia. apply Hall. simpl. lia.
Qed.

(** When the zone and its function are found and the device has an
    instance in that zone for every range, [parse_ect_cooling_level] leaves
    the instance of trip [k] with [upper] the level [fpsToLevel] gives for
    the max-frequency of range [k], or the maximum state when that
    max-frequency is not in the table (with fewer than 2^31 runs of valid
    fps values). *)
Theorem parse_ect_cooling_level_sets_levels (table : option (list isp_fps_table))
    (block : ect_thermal_block) (tz_name tz : string) (insts : list thermal_instance)
    (function : ect_ap_thermal_function) :
  (forall t, table = Some t -> Z.of_nat (length (run_heads (valid_fps t))) < 2 ^ 31) ->
  find_tz tz_name insts = Some tz ->
  ect_ap_thermal_get_function block tz_name = Some function ->
  (forall k, (k < length (range_list function))%nat -> get_thermal_instance tz k insts <> None) ->
  forall k r, range_list function !! k = Some r ->
  exists inst,
    get_thermal_instance tz k (snd (parse_ect_cooling_level table (Some block) tz_name insts))
      = Some inst /\
    upper inst = match fpsToLevel table (max_frequency r) with
                 | Ok v => v | Err _ => snd (isp_get_max_state table 0) end.
Proof.
  intros Hb Htz Hf Hall k r Hk. unfold parse_ect_cooling_level. rewrite Htz, Hf. cbn [snd].
  apply (parse_ranges_levels table tz (range_list function) Hb 0 insts Hall k r Hk).
Qed.

Lemma parse_ect_cooling_level_sets_levels_witness :
  exists inst,
    get_thermal_instance "cpu0" 1
      (snd (parse_ect_cooling_level (Some desc_table)
              (Some [mk_ect_ap_thermal_function "cpu0"
                 [mk_ect_ap_thermal_range 60 15; mk_ect_ap_thermal_range 90 99]])
              "cpu0" [mk_thermal_instance "cpu0" 0 7; mk_thermal_instance "cpu0" 1 7]))
      = Some inst /\
    upper inst = match fpsToLevel (Some desc_table) 99 with
                 | Ok v => v | Err _ => snd (isp_get_max_state (Some desc_table) 0) end.
Proof.
  refine (parse_ect_cooling_level_sets_levels (Some desc_table)
           [mk_ect_ap_thermal_function "cpu0"
              [mk_ect_ap_thermal_range 60 15; mk_ect_ap_thermal_range 90 99]]
           "cpu0" "cpu0" [mk_thermal_instance "cpu0" 0 7; mk_thermal_instance "cpu0" 1 7]
           (mk_ect_ap_thermal_function "cpu0"
              [mk_ect_ap_thermal_range 60 15; mk_ect_ap_thermal_range 90 99])
           _ _ _ _ 1%nat (mk_ect_ap_thermal_range 90 99) _).
  - intros t Ht. injection Ht as <-. vm_compute. reflexivity.
  - vm_compute. reflexivity.
  - vm_compute. reflexivity.
  - intros k Hk. destruct k as [|[|k]]; [vm_compute; discriminate | vm_compute; discriminate |].
    simpl in Hk. lia.
  - reflexivity.
Defined.

(** *** Further properties of the queries and of registration *)

Lemma to_int_range (x : Z) : - 2 ^ 31 <= to_int x < 2 ^ 31.
Proof.
  unfold to_int, UINT_MOD.
  pose proof (Z.mod_pos_bound x (2 ^ 32) ltac:(lia)).
  rewrite Z.geb_leb. destruct (Z.leb_spec (2 ^ 31) (x mod 2 ^ 32)); lia.
Qed.

Lemma translate_fps_beyond (input level d m f i : Z) (l : list Z) :
  0 <= i -> i + Z.of_nat (length l) <= level -> level < ULONG_MOD ->
  translate_scan GET_FPS input level d m f i l = Err EINVAL.
Proof.
  revert f i; induction l as [|p l IH]; intros f i Hi Hlv Hmax; simpl in *; [reflexivity|].
  destruct (f =? p); [apply IH; lia|].
  unfold to_ulong at 1. rewrite (Z.mod_small i) by (unfold ULONG_MOD in *; lia).
  rewrite (proj2 (Z.eqb_neq level i)) by lia.
  apply IH; lia.
Qed.

(** On any table with fewer than 2^31 valid entries, [levelToFps L] fails
    with -EINVAL when [(int)L] is negative or is not below the number of
    valid entries: the scan never reaches such a level. *)
Theorem levelToFps_rejects_out_of_range (t : list isp_fps_table) (L : Z) :
  Z.of_nat (length (valid_fps t)) < 2 ^ 31 ->
  to_int L < 0 \/ Z.of_nat (length (valid_fps t)) <= to_int L ->
  levelToFps (Some t) L = Err EINVAL.
Proof.
  intros Hlen HL. unfold levelToFps, get_property.
  destruct (count_scan ISP_FPS_ENTRY_INVALID (-1) 0 (valid_fps t)) as [[f d] m].
  destruct (m =? 0); [reflexivity|].
  pose proof (to_int_range L) as Hr.
  apply translate_fps_beyond; [lia | |].
  - unfold to_ulong, ULONG_MOD. destruct HL as [HL|HL].
    + rewrite <- (Z.mod_add (to_int L) 1 (2 ^ 64)) by lia.
      rewrite Z.mod_small by lia. lia.
    + rewrite Z.mod_small by lia. lia.
  - unfold to_ulong. apply Z.mod_pos_bound. unfold ULONG_MOD. lia.
Qed.

Lemma levelToFps_rejects_out_of_range_witness :
  levelToFps (Some (table_of [(30, 0); (30, 1); (15, 2)])) 3 = Err EINVAL /\
  levelToFps (Some (table_of [(30, 0); (30, 1); (15, 2)])) 4294967295 = Err EINVAL.
Proof.
  split.
  - apply levelToFps_rejects_out_of_range; vm_compute; [reflexivity | right; discriminate].
  - apply levelToFps_rejects_out_of_range; vm_compute; [reflexivity | left; reflexivity].
Defined.

(** Two registrations that both succeed give their devices different ids,
    and the device count goes up by two. *)
Theorem registrations_distinct_ids (g g1 g2 : isp_globals) (np1 kz1 idm1 np2 kz2 idm2 : bool)
    (e1 e2 : option Z) (d1 d2 : isp_cooling_device) :
  of_isp_cooling_register g np1 kz1 idm1 e1 = (Reg_ok d1, g1) ->
  of_isp_cooling_register g1 np2 kz2 idm2 e2 = (Reg_ok d2, g2) ->
  id d1 <> id d2 /\ {[id d1; id d2]} ∪ isp_idr g = isp_idr g2 /\
  isp_dev_count g2 = to_uint (isp_dev_count g + 2).
Proof.
  unfold of_isp_cooling_register.
  destruct np1; cbn [negb]; [|discriminate]. destruct np2; cbn [negb]; [|discriminate].
  intros H1 H2.
  destruct (register_helper_ok _ _ _ _ _ _ H1)
    as [_ [_ [_ [_ [_ [_ [Hids1 [Hc1 _]]]]]]]].
  destruct (register_helper_ok _ _ _ _ _ _ H2)
    as [_ [_ [_ [Hfresh2 [_ [_ [Hids2 [Hc2 _]]]]]]]].
  split; [|split].
  - intros Heq. apply Hfresh2. rewrite Hids1, Heq. set_solver.
  - rewrite Hids2, Hids1. apply leibniz_equiv. set_solver.
  - rewrite Hc2, Hc1. unfold to_uint. rewrite Zplus_mod_idemp_l. f_equal. lia.
Qed.

Lemma registrations_distinct_ids_witness :
  id (mk_isp_cooling_device 0 0 0) <> id (mk_isp_cooling_device 1 0 0) /\
  {[id (mk_isp_cooling_device 0 0 0); id (mk_isp_cooling_device 1 0 0)]}
    ∪ isp_idr (mk_isp_globals ∅ 0) = isp_idr (mk_isp_globals ({[1]} ∪ ({[0]} ∪ ∅)) 2) /\
  isp_dev_count (mk_isp_globals ({[1]} ∪ ({[0]} ∪ ∅)) 2) =
    to_uint (isp_dev_count (mk_isp_globals ∅ 0) + 2).
Proof.
  apply (registrations_distinct_ids (mk_isp_globals ∅ 0) (mk_isp_globals ({[0]} ∪ ∅) 1)
           (mk_isp_globals ({[1]} ∪ ({[0]} ∪ ∅)) 2) true true true true true true None None
           (mk_isp_cooling_device 0 0 0) (mk_isp_cooling_device 1 0 0));
    vm_compute; reflexivity.
Defined.

(** When [exynos_isp_cooling_init] returns 0, the table in place is the
    one [isp_cooling_table_init] built and one device is registered under
    an id that was free. *)
Theorem exynos_isp_cooling_init_success (table table' : option (list isp_fps_table))
    (g g' : isp_globals) (thermal_block : option ect_thermal_block)
    (alloc_ok np_found kz idm : bool) (reg_err : option Z) :
  exynos_isp_cooling_init table g thermal_block alloc_ok np_found kz idm reg_err =
    Mod_ret 0 table' g' ->
  exists t k, isp_cooling_table_init thermal_block alloc_ok = Init_ok t /\ table' = Some t /\
    (k ∉ isp_idr g) /\ isp_idr g' = {[k]} ∪ isp_idr g /\
    isp_dev_count g' = to_uint (isp_dev_count g + 1).
Proof.
  unfold exynos_isp_cooling_init.
  destruct (isp_cooling_table_init thermal_block alloc_ok) as [t|e|] eqn:Hi;
    [| destruct e; discriminate | discriminate].
  destruct np_found; cbn [negb]; [|discriminate].
  destruct (of_isp_cooling_register g true kz idm reg_err) as [[dev|c] g1] eqn:Hr;
    [|discriminate].
  intros H; injection H as <- <-.
  unfold of_isp_cooling_register in Hr. cbn [negb] in Hr.
  destruct (register_helper_ok _ _ _ _ _ _ Hr)
    as [_ [_ [_ [Hfresh [_ [_ [Hids [Hc _]]]]]]]].
  exists t, (id dev). auto.
Qed.

Lemma exynos_isp_cooling_init_success_witness :
  exists t k, isp_cooling_table_init (Some (cfg [30; 15])) true = Init_ok t /\
    Some (entries_from 0 [30; 15] ++ [end_entry]) = Some t /\
    (k ∉ isp_idr (mk_isp_globals ∅ 0)) /\
    isp_idr (mk_isp_globals ({[0]} ∪ ∅) 1) = {[k]} ∪ isp_idr (mk_isp_globals ∅ 0) /\
    isp_dev_count (mk_isp_globals ({[0]} ∪ ∅) 1) = to_uint (isp_dev_count (mk_isp_globals ∅ 0) + 1).
Proof.
  apply (exynos_isp_cooling_init_success None (Some (entries_from 0 [30; 15] ++ [end_entry]))
           (mk_isp_globals ∅ 0) (mk_isp_globals ({[0]} ∪ ∅) 1) (Some (cfg [30; 15]))
           true true true true None).
  vm_compute. reflexivity.
Defined.
